(** * tchannel frame codec: a shallow embedding of [frame.go]

    The development follows the Go source: [FrameHeader] and its size
    accessors, the header codec over the [typed] read and write buffers, the
    [Frame] with its owned backing buffer and the two views into it, buffer
    growth, and whole-frame stream I/O ([ReadIn], [WriteOut]).

    Conventions.
    - A Go [uint16]/[uint32] is a [Z]; every operation that can leave the
      range has its wrap-around written out ([u16]).
    - A Go [byte] is [Byte.byte]; [byte.unsigned] and [byte.of_Z] are the
      conversions to and from integers.
    - A slice is a [list byte].  [headerBuffer] and [Payload] are views of
      [buffer]: they are modelled as functions of [buffer], so a store through
      one of them is a store into [buffer].
    - A Go run-time panic and a loop that never exits are outcomes of their
      own ([Panic], [Diverge]), distinct from a returned [error]. *)

From Stdlib Require Import ZArith List Lia Bool.
From coqutil Require Import Byte.
Import ListNotations.
Local Open Scope Z_scope.

(** ** Machine integers *)

(** Conversion to (and arithmetic in) [uint16]: reduction modulo 2^16. *)
Definition u16 (z : Z) : Z := z mod 2 ^ 16.

(** ** Errors *)

(** The error values that can travel through the codec. *)
Inductive error : Type :=
| ErrEOF                 (* typed.ErrEOF *)
| ErrBufferFull          (* typed.ErrBufferFull *)
| EOF                    (* io.EOF *)
| ErrUnexpectedEOF       (* io.ErrUnexpectedEOF *)
| StreamError (code : nat)    (* any other error of the stream *)
| MessageError (code : nat).  (* an error of the message's own codec *)

(** How a call ends: it returns, it panics, or it never returns. *)
Inductive result (A : Type) : Type :=
| Returned (a : A)
| Panic
| Diverge.
Arguments Returned {A} a.
Arguments Panic {A}.
Arguments Diverge {A}.

(** ** A small state monad for the buffer cursors *)

Definition State (S A : Type) : Type := S -> A * S.

Definition ret {S A} (a : A) : State S A := fun s => (a, s).

Definition bind {S A B} (m : State S A) (k : A -> State S B) : State S B :=
  fun s => let (a, s') := m s in k a s'.

Declare Scope state_scope.
Delimit Scope state_scope with state.
Notation "x <- m ;; k" := (bind m (fun x => k))
  (at level 61, m at next level, right associativity) : state_scope.
Notation "m ;;; k" := (bind m (fun _ => k))
  (at level 61, right associativity) : state_scope.

(** [store_at buf off data]: the slice [buf] after [copy(buf[off:], data)]
    for [data] that fits. *)
Definition store_at (buf : list byte) (off : nat) (data : list byte) : list byte :=
  firstn off buf ++ data ++ skipn (off + length data) buf.

(** ** Package [io]: streams *)

Module io.

(** An [io.Reader] as the script of what its successive [Read] calls will
    deliver: each entry is the bytes one call has available and the error
    it reports with them ([None] is Go's [nil]).  A script that has run out
    reports [io.EOF].  Short reads, empty reads, errors in the middle and
    errors that come with data are all scripts. *)
Definition Reader : Type := list (list byte * option error).

(** One call [r.Read(p)] with [len(p) = n]: at most [n] bytes are taken;
    what does not fit stays for the next call. *)
Definition Read (n : nat) (r : Reader) : list byte * option error * Reader :=
  match r with
  | [] => ([], Some EOF, [])
  | (c, oe) :: r' =>
      if (length c <=? n)%nat then (c, oe, r')
      else (firstn n c, None, (skipn n c, oe) :: r')
  end.

(** The loop of [io.ReadAtLeast],
    [for n < min && err == nil { nn, err = r.Read(buf[n:]); n += nn }],
    with [need = min - n]: the bytes stored, the last error, the reader. *)
Fixpoint fill (r : Reader) (need : nat) : list byte * option error * Reader :=
  match need with
  | O => ([], None, r)
  | S _ =>
      match r with
      | [] => ([], Some EOF, [])
      | (c, oe) :: r' =>
          if (length c <=? need)%nat then
            match oe with
            | Some e => (c, Some e, r')
            | None =>
                let '(d, e, r'') := fill r' (need - length c) in
                (c ++ d, e, r'')
            end
          else (firstn need c, None, (skipn need c, oe) :: r')
      end
  end.

(** [io.ReadFull(r, buf)] with [len(buf) = n]: after the loop, the error is
    dropped when [n] bytes arrived, and [EOF] after some bytes becomes
    [ErrUnexpectedEOF]. *)
Definition ReadFull (r : Reader) (n : nat) : list byte * option error * Reader :=
  let '(d, e, r') := fill r n in
  let e' :=
    if (n <=? length d)%nat then None
    else match e with
         | Some EOF => if (0 <? length d)%nat then Some ErrUnexpectedEOF else Some EOF
         | _ => e
         end in
  (d, e', r').

(** The bytes a reader delivers before its first error or its end. *)
Fixpoint delivered (r : Reader) : list byte :=
  match r with
  | [] => []
  | (c, None) :: r' => c ++ delivered r'
  | (c, Some _) :: _ => c
  end.

(** An [io.Writer]: one [Write] call, giving the count and the error. *)
Class Writer (W : Type) : Type :=
  Write : W -> list byte -> W * (Z * option error).

(** The in-memory sink ([bytes.Buffer]): [Write] appends and cannot fail. *)
Definition Buffer : Type := list byte.

#[global] Instance Buffer_Writer : Writer Buffer :=
  fun w p => (w ++ p, (Z.of_nat (length p), None)).

End io.

(** ** Package [typed]: bounded read and write cursors over a byte slice *)

Module typed.

(** Modelled from the spec: [binary.BigEndian.PutUint16]; the byte order of
    the repository's [typed] package, whose source is not part of the
    frame codec's files ("big-endian/network order"). *)
Definition PutUint16 (v : Z) : list byte :=
  [byte.of_Z (Z.shiftr v 8); byte.of_Z v].

(** Modelled from the spec: [binary.BigEndian.Uint16] on a two-byte slice. *)
Definition Uint16 (b : list byte) : Z :=
  match b with
  | [b0; b1] => Z.lor (byte.unsigned b1) (Z.shiftl (byte.unsigned b0) 8)
  | _ => 0
  end.

(** Modelled from the spec: [binary.BigEndian.PutUint32]. *)
Definition PutUint32 (v : Z) : list byte :=
  [byte.of_Z (Z.shiftr v 24); byte.of_Z (Z.shiftr v 16);
   byte.of_Z (Z.shiftr v 8); byte.of_Z v].

(** Modelled from the spec: [binary.BigEndian.Uint32] on a four-byte slice. *)
Definition Uint32 (b : list byte) : Z :=
  match b with
  | [b0; b1; b2; b3] =>
      Z.lor (Z.lor (Z.lor (byte.unsigned b3) (Z.shiftl (byte.unsigned b2) 8))
                   (Z.shiftl (byte.unsigned b1) 16))
            (Z.shiftl (byte.unsigned b0) 24)
  | _ => 0
  end.

(** Modelled from the spec: [typed.ReadBuffer], the bounded read cursor of
    the repository's [typed] package: the wrapped slice, what is left of it,
    and a sticky error. *)
Record ReadBuffer : Type := mkReadBuffer {
  rb_buffer : list byte;
  rb_remaining : list byte;
  rb_err : option error
}.

(** Modelled from the spec: [ReadBuffer.Wrap]. *)
Definition ReadBuffer_Wrap (b : list byte) : ReadBuffer :=
  {| rb_buffer := b; rb_remaining := b; rb_err := None |}.

(** Modelled from the spec: [ReadBuffer.ReadBytes]; [None] is Go's [nil]
    result.  A failed read sets the sticky error and consumes nothing. *)
Definition ReadBytes (n : nat) : State ReadBuffer (option (list byte)) :=
  fun r =>
    match rb_err r with
    | Some _ => (None, r)
    | None =>
        if (length (rb_remaining r) <? n)%nat
        then (None, {| rb_buffer := rb_buffer r;
                       rb_remaining := rb_remaining r;
                       rb_err := Some ErrEOF |})
        else (Some (firstn n (rb_remaining r)),
              {| rb_buffer := rb_buffer r;
                 rb_remaining := skipn n (rb_remaining r);
                 rb_err := None |})
    end.

(** Modelled from the spec: [ReadBuffer.ReadSingleByte]; zero on failure. *)
Definition ReadSingleByte : State ReadBuffer byte :=
  fun r =>
    match rb_err r with
    | Some _ => (Byte.x00, r)
    | None =>
        match rb_remaining r with
        | [] => (Byte.x00, {| rb_buffer := rb_buffer r;
                              rb_remaining := [];
                              rb_err := Some ErrEOF |})
        | b :: rest => (b, {| rb_buffer := rb_buffer r;
                              rb_remaining := rest;
                              rb_err := None |})
        end
    end.

(** Modelled from the spec: [ReadBuffer.ReadUint16]; zero on failure. *)
Definition ReadUint16 : State ReadBuffer Z :=
  (b <- ReadBytes 2 ;;
   ret (match b with Some bs => Uint16 bs | None => 0 end))%state.

(** Modelled from the spec: [ReadBuffer.ReadUint32]; zero on failure. *)
Definition ReadUint32 : State ReadBuffer Z :=
  (b <- ReadBytes 4 ;;
   ret (match b with Some bs => Uint32 bs | None => 0 end))%state.

(** Modelled from the spec: [ReadBuffer.Err]. *)
Definition ReadBuffer_Err : State ReadBuffer (option error) :=
  fun r => (rb_err r, r).

(** Modelled from the spec: [ReadBuffer.FillFrom]: with a wrapped slice
    shorter than [n] it fails at once; otherwise it clears the error, takes
    the first [n] bytes as what remains and fills them with [io.ReadFull]
    (the bytes land in the wrapped slice). *)
Definition FillFrom (n : nat) (rb : ReadBuffer) (ior : io.Reader)
  : ReadBuffer * io.Reader * option error :=
  if (length (rb_buffer rb) <? n)%nat then (rb, ior, Some ErrEOF)
  else
    let '(d, e, ior') := io.ReadFull ior n in
    let b := store_at (rb_buffer rb) 0 d in
    ({| rb_buffer := b; rb_remaining := firstn n b; rb_err := None |}, ior', e).

(** Modelled from the spec: [typed.WriteBuffer], the bounded write cursor:
    the wrapped slice, the offset at which [remaining] starts in it, and a
    sticky error.  Writes go into the wrapped slice itself. *)
Record WriteBuffer : Type := mkWriteBuffer {
  wb_buffer : list byte;
  wb_pos : nat;
  wb_err : option error
}.

Definition wb_remaining (w : WriteBuffer) : list byte :=
  skipn (wb_pos w) (wb_buffer w).

(** Modelled from the spec: [WriteBuffer.Wrap]. *)
Definition WriteBuffer_Wrap (b : list byte) : WriteBuffer :=
  {| wb_buffer := b; wb_pos := 0; wb_err := None |}.

(** Modelled from the spec: [WriteBuffer.reserve] followed by the store of
    [data] into the reserved bytes; with an error set, or with fewer than
    [length data] bytes remaining, nothing is stored and the error is
    (or stays) set. *)
Definition put (data : list byte) : State WriteBuffer unit :=
  fun w =>
    match wb_err w with
    | Some _ => (tt, w)
    | None =>
        if (length (wb_remaining w) <? length data)%nat
        then (tt, {| wb_buffer := wb_buffer w;
                     wb_pos := wb_pos w;
                     wb_err := Some ErrBufferFull |})
        else (tt, {| wb_buffer := store_at (wb_buffer w) (wb_pos w) data;
                     wb_pos := wb_pos w + length data;
                     wb_err := None |})
    end.

(** Modelled from the spec: [WriteBuffer.WriteSingleByte]. *)
Definition WriteSingleByte (b : byte) : State WriteBuffer unit := put [b].

(** Modelled from the spec: [WriteBuffer.WriteBytes]. *)
Definition WriteBytes (bs : list byte) : State WriteBuffer unit := put bs.

(** Modelled from the spec: [WriteBuffer.WriteUint16]. *)
Definition WriteUint16 (n : Z) : State WriteBuffer unit := put (PutUint16 n).

(** Modelled from the spec: [WriteBuffer.WriteUint32]. *)
Definition WriteUint32 (n : Z) : State WriteBuffer unit := put (PutUint32 n).

(** Modelled from the spec: [WriteBuffer.Err]. *)
Definition WriteBuffer_Err : State WriteBuffer (option error) :=
  fun w => (wb_err w, w).

(** Modelled from the spec: [WriteBuffer.BytesWritten],
    [len(buffer) - len(remaining)]. *)
Definition BytesWritten (w : WriteBuffer) : Z :=
  Z.of_nat (length (wb_buffer w)) - Z.of_nat (length (wb_remaining w)).

End typed.

(** ** Constants of [frame.go] *)

Definition MaxFrameSize : Z := 65535.          (* math.MaxUint16 *)
Definition FrameHeaderSize : Z := 16.
Definition MaxFramePayloadSize : Z := MaxFrameSize - FrameHeaderSize.
Definition initialPayloadCapacity : Z := 1024.

(** ** FrameHeader *)

(** The Go array type [[8]byte]. *)
Definition byte8 : Type := (byte * byte * byte * byte * byte * byte * byte * byte)%type.

Definition byte8_slice (a : byte8) : list byte :=
  let '(a0, a1, a2, a3, a4, a5, a6, a7) := a in [a0; a1; a2; a3; a4; a5; a6; a7].

Definition byte8_zero : byte8 :=
  (Byte.x00, Byte.x00, Byte.x00, Byte.x00, Byte.x00, Byte.x00, Byte.x00, Byte.x00).

Record FrameHeader : Type := mkFrameHeader {
  size : Z;              (* uint16: size of the frame including the header *)
  messageType : byte;
  reserved1 : byte;
  ID : Z;                (* uint32 *)
  reserved : byte8
}.

(** The zero value of the struct. *)
Definition FrameHeader_zero : FrameHeader :=
  {| size := 0; messageType := Byte.x00; reserved1 := Byte.x00; ID := 0;
     reserved := byte8_zero |}.

(** [fh.size = size + FrameHeaderSize], in [uint16] arithmetic. *)
Definition SetPayloadSize (fh : FrameHeader) (sz : Z) : FrameHeader :=
  {| size := u16 (sz + FrameHeaderSize);
     messageType := messageType fh;
     reserved1 := reserved1 fh;
     ID := ID fh;
     reserved := reserved fh |}.

(** [fh.size - FrameHeaderSize], in [uint16] arithmetic. *)
Definition PayloadSize (fh : FrameHeader) : Z := u16 (size fh - FrameHeaderSize).

Definition FrameSize (fh : FrameHeader) : Z := size fh.

Import typed.

(** [FrameHeader.read]: the fields are assigned from the cursor in order; the
    eight reserved bytes are consumed and dropped, [fh.reserved] keeps its
    value. *)
Definition FrameHeader_read (fh : FrameHeader)
  : State ReadBuffer (FrameHeader * option error) :=
  (sz <- ReadUint16 ;;
   mt <- ReadSingleByte ;;
   r1 <- ReadSingleByte ;;
   id <- ReadUint32 ;;
   ReadBytes 8 ;;;
   e <- ReadBuffer_Err ;;
   ret ({| size := sz; messageType := mt; reserved1 := r1; ID := id;
           reserved := reserved fh |}, e))%state.

(** [FrameHeader.write]. *)
Definition FrameHeader_write (fh : FrameHeader) : State WriteBuffer (option error) :=
  (WriteUint16 (size fh) ;;;
   WriteSingleByte (messageType fh) ;;;
   WriteSingleByte (reserved1 fh) ;;;
   WriteUint32 (ID fh) ;;;
   WriteBytes (byte8_slice (reserved fh)) ;;;
   WriteBuffer_Err)%state.

(** ** Messages *)

(** The [message] interface of the package, as far as [Frame.write] uses it:
    the correlation id (a [uint32]), the type tag, and the encoder, which
    drives the write cursor it is handed and returns an error or [nil]. *)
Class message (M : Type) : Type := {
  msg_ID : M -> Z;
  msg_messageType : M -> byte;
  msg_write : M -> State WriteBuffer (option error);
  (* the encoder stores through the cursor: the wrapped slice keeps its length *)
  msg_write_length : forall (m : M) (w : WriteBuffer),
    length (wb_buffer (snd (msg_write m w))) = length (wb_buffer w)
}.

(** A message whose encoding is a given byte string. *)
Record rawMessage : Type := mkRawMessage {
  raw_id : Z;
  raw_type : byte;
  raw_body : list byte
}.

(** A store of [data] that fits leaves the length of the slice as it was. *)
Lemma store_at_length (buf : list byte) (off : nat) (data : list byte) :
  (off + length data <= length buf)%nat ->
  length (store_at buf off data) = length buf.
Proof.
  intros H. unfold store_at.
  rewrite !length_app, length_firstn, length_skipn. lia.
Qed.

Lemma put_length (data : list byte) (w : WriteBuffer) :
  length (wb_buffer (snd (put data w))) = length (wb_buffer w).
Proof.
  unfold put. destruct (wb_err w); [reflexivity|].
  destruct (Nat.ltb_spec (length (wb_remaining w)) (length data)) as [H|H];
    [reflexivity|].
  cbn [snd wb_buffer]. unfold wb_remaining in H. rewrite length_skipn in H.
  unfold store_at. rewrite !length_app, length_firstn, length_skipn. lia.
Qed.

Lemma raw_write_length (m : rawMessage) (w : WriteBuffer) :
  length (wb_buffer (snd ((WriteBytes (raw_body m) ;;; WriteBuffer_Err)%state w)))
  = length (wb_buffer w).
Proof.
  unfold bind, WriteBytes, WriteBuffer_Err.
  pose proof (put_length (raw_body m) w) as H.
  destruct (put (raw_body m) w) as [u w']. exact H.
Qed.

#[export] Instance rawMessage_message : message rawMessage := {
  msg_ID := raw_id;
  msg_messageType := raw_type;
  msg_write := fun m => (WriteBytes (raw_body m) ;;; WriteBuffer_Err)%state;
  msg_write_length := raw_write_length
}.

(** ** Frame *)

(** A frame owns [buffer]; [Header] is the decoded header. *)
Record Frame : Type := mkFrame {
  buffer : list byte;
  Header : FrameHeader
}.

(** The view [f.buffer[:FrameHeaderSize]]. *)
Definition headerBuffer (f : Frame) : list byte := firstn 16 (buffer f).

(** The view [f.buffer[FrameHeaderSize:]]. *)
Definition Payload (f : Frame) : list byte := skipn 16 (buffer f).

(** [cap(f.buffer)]. *)
Definition capacity (f : Frame) : Z := Z.of_nat (length (buffer f)).

(** The zero value [Frame{}]. *)
Definition Frame_zero : Frame := {| buffer := []; Header := FrameHeader_zero |}.

(** [updateBufferSize]: a zeroed buffer of [payloadCapacity] bytes receives
    the old bytes, as many as fit; taking the two views panics when the new
    buffer is shorter than the header. *)
Definition updateBufferSize (f : Frame) (payloadCapacity : Z) : result Frame :=
  if payloadCapacity <? 0 then Panic
  else
    let n := Z.to_nat payloadCapacity in
    let newBuffer := firstn n (buffer f) ++ repeat Byte.x00 (n - length (buffer f)) in
    if payloadCapacity <? FrameHeaderSize then Panic
    else Returned {| buffer := newBuffer; Header := Header f |}.

Definition NewFrame : result Frame :=
  updateBufferSize Frame_zero initialPayloadCapacity.

(** The loop [for sz < needed { sz <<= 1 }].  [needed] is below 2^16, so
    from [sz >= 1] sixteen doublings always end it; from [sz = 0] it never
    ends, which is [None] for every amount of fuel. *)
Fixpoint double_until (fuel : nat) (sz needed : Z) : option Z :=
  if sz <? needed then
    match fuel with
    | O => None
    | S k => double_until k (Z.shiftl sz 1) needed
    end
  else Some sz.

(** [f.Payload[:f.Header.PayloadSize()]]: within the capacity of the view,
    or a panic. *)
Definition payload_slice (f : Frame) : result (list byte) :=
  if PayloadSize (Header f) <=? Z.of_nat (length (Payload f))
  then Returned (firstn (Z.to_nat (PayloadSize (Header f))) (Payload f))
  else Panic.

(** [SizedPayload].  [needed] is [int(FrameHeaderSize + PayloadSize())], the
    sum being taken in [uint16]. *)
Definition SizedPayload (f : Frame) : Frame * result (list byte) :=
  let needed := u16 (FrameHeaderSize + PayloadSize (Header f)) in
  let sz := capacity f in
  if sz <? needed then
    match double_until 16 sz needed with
    | None => (f, Diverge)
    | Some sz' =>
        match updateBufferSize f sz' with
        | Returned f' => (f', payload_slice f')
        | Panic => (f, Panic)
        | Diverge => (f, Diverge)
        end
    end
  else (f, payload_slice f).

(** The second half of [ReadIn], once the header is decoded:
    [if f.Header.PayloadSize() > 0 { io.ReadFull(r, f.SizedPayload()) }].
    The payload is read into the sized payload view, that is into [buffer]
    from offset 16. *)
Definition read_payload (f2 : Frame) (r1 : io.Reader)
  : Frame * io.Reader * result (option error) :=
  if 0 <? PayloadSize (Header f2) then
    match SizedPayload f2 with
    | (f3, Returned p) =>
        let '(d, e3, r2) := io.ReadFull r1 (length p) in
        ({| buffer := store_at (buffer f3) 16 d; Header := Header f3 |},
         r2, Returned e3)
    | (f3, Panic) => (f3, r1, Panic)
    | (f3, Diverge) => (f3, r1, Diverge)
    end
  else (f2, r1, Returned None).

(** [ReadIn].  The read cursor wraps the header view, so what [FillFrom]
    reads lands in the first bytes of [buffer]. *)
Definition ReadIn (f : Frame) (r : io.Reader) : Frame * io.Reader * result (option error) :=
  let rbuf := ReadBuffer_Wrap (headerBuffer f) in
  let '(rbuf1, r1, e1) := FillFrom 16 rbuf r in
  let f1 := {| buffer := store_at (buffer f) 0 (rb_buffer rbuf1); Header := Header f |} in
  match e1 with
  | Some err => (f1, r1, Returned (Some err))
  | None =>
      let '(h, e2, _) := FrameHeader_read (Header f1) rbuf1 in
      let f2 := {| buffer := buffer f1; Header := h |} in
      match e2 with
      | Some err => (f2, r1, Returned (Some err))
      | None => read_payload f2 r1
      end
  end.

(** [WriteOut].  The header is encoded into the header view, then the first
    [FrameSize()] bytes of [buffer] go to the writer in one [Write] call;
    slicing beyond the capacity panics. *)
Definition WriteOut {W} `{io.Writer W} (f : Frame) (w : W)
  : Frame * W * result (option error) :=
  let wbuf := WriteBuffer_Wrap (headerBuffer f) in
  let '(e1, wbuf1) := FrameHeader_write (Header f) wbuf in
  let f1 := {| buffer := store_at (buffer f) 0 (wb_buffer wbuf1); Header := Header f |} in
  match e1 with
  | Some err => (f1, w, Returned (Some err))
  | None =>
      if FrameSize (Header f1) <=? capacity f1 then
        let fullFrame := firstn (Z.to_nat (FrameSize (Header f1))) (buffer f1) in
        let '(w', (_, e2)) := io.Write w fullFrame in
        (f1, w', Returned e2)
      else (f1, w, Panic)
  end.

(** [Frame.write].  The write cursor wraps the whole payload view, so the
    message's bytes land in [buffer] from offset 16; the header fields are
    assigned after the encoder returned [nil]. *)
Definition Frame_write {M} `{message M} (f : Frame) (msg : M) : Frame * option error :=
  let wbuf := WriteBuffer_Wrap (Payload f) in
  let '(e, wbuf1) := msg_write msg wbuf in
  let f1 := {| buffer := store_at (buffer f) 16 (wb_buffer wbuf1); Header := Header f |} in
  match e with
  | Some err => (f1, Some err)
  | None =>
      let h := {| size := size (Header f1);
                  messageType := msg_messageType msg;
                  reserved1 := Byte.x00;
                  ID := msg_ID msg;
                  reserved := reserved (Header f1) |} in
      ({| buffer := buffer f1; Header := SetPayloadSize h (u16 (BytesWritten wbuf1)) |},
       None)
  end.

(** ** Wire image of a header *)

(** The sixteen bytes [FrameHeader.write] produces for [fh]. *)
Definition header_bytes (fh : FrameHeader) : list byte :=
  PutUint16 (size fh) ++ [messageType fh; reserved1 fh] ++ PutUint32 (ID fh)
    ++ byte8_slice (reserved fh).

(** The header [FrameHeader.read] assigns from sixteen wire bytes; the
    [reserved] array is the one the header had before. *)
Definition header_of_bytes (old : FrameHeader) (wire : list byte) : FrameHeader :=
  {| size := Uint16 (firstn 2 wire);
     messageType := nth 2 wire Byte.x00;
     reserved1 := nth 3 wire Byte.x00;
     ID := Uint32 (firstn 4 (skipn 4 wire));
     reserved := reserved old |}.

(** The frame [NewFrame] returns. *)
Definition fresh_frame : Frame :=
  {| buffer := repeat Byte.x00 1024; Header := FrameHeader_zero |}.

(** ** Sample values *)

(** Wire bytes of a header with size 16 whose reserved bytes are not zero. *)
Definition wire_with_reserved : list byte :=
  [Byte.x00; Byte.x10; Byte.x07; Byte.x09; Byte.x00; Byte.x00; Byte.x00; Byte.x2a;
   Byte.x01; Byte.x02; Byte.x03; Byte.x04; Byte.x05; Byte.x06; Byte.x07; Byte.x08].

(** The end-to-end example: message type 7, id 42, a payload of one hundred
    bytes 0, 1, ..., 99. *)
Definition sample_payload : list byte := map (fun i => byte.of_Z (Z.of_nat i)) (seq 0 100).
Definition sample_message : rawMessage :=
  {| raw_id := 42; raw_type := Byte.x07; raw_body := sample_payload |}.
Definition sample_cursor : WriteBuffer :=
  snd (msg_write sample_message (WriteBuffer_Wrap (Payload fresh_frame))).
Definition sample_wire : list byte :=
  snd (fst (WriteOut (fst (Frame_write fresh_frame sample_message)) ([] : io.Buffer))).
Definition bytewise (bs : list byte) : io.Reader := map (fun b => ([b], None)) bs.

(** A message too long for a fresh frame, and a frame whose header holds
    the fields of an earlier message. *)
Definition oversized_message : rawMessage :=
  {| raw_id := 42; raw_type := Byte.x07; raw_body := repeat Byte.x01 2000 |}.
Definition used_frame : Frame :=
  {| buffer := buffer fresh_frame;
     Header := {| size := 21; messageType := Byte.x03; reserved1 := Byte.x00; ID := 7;
                  reserved := byte8_zero |} |}.

(** A fresh buffer under a header that declares 5000 payload bytes. *)
Definition growing_frame : Frame :=
  {| buffer := buffer fresh_frame; Header := SetPayloadSize FrameHeader_zero 5000 |}.

(** A frame grown to the largest capacity doubling reaches (65536), a
    message of 65520 bytes, a fresh buffer under a header declaring 40000
    payload bytes, and the largest valid frame with its wire image. *)
Definition max_frame : Frame :=
  {| buffer := repeat Byte.x00 (Z.to_nat 65536); Header := FrameHeader_zero |}.
Definition message_65520 : rawMessage :=
  {| raw_id := 42; raw_type := Byte.x07; raw_body := repeat Byte.x01 (Z.to_nat 65520) |}.
Definition large_header_frame : Frame :=
  {| buffer := buffer fresh_frame; Header := SetPayloadSize FrameHeader_zero 40000 |}.
Definition max_payload_frame : Frame :=
  {| buffer := buffer max_frame; Header := SetPayloadSize (Header max_frame) 65519 |}.
Definition max_payload_wire : list byte :=
  snd (fst (WriteOut max_payload_frame ([] : io.Buffer))).

(** A stream whose header declares size 5, followed by five more bytes. *)
Definition undersized_stream : io.Reader :=
  [([Byte.x00; Byte.x05; Byte.x07; Byte.x00; Byte.x00; Byte.x00; Byte.x00; Byte.x2a;
     Byte.x00; Byte.x00; Byte.x00; Byte.x00; Byte.x00; Byte.x00; Byte.x00; Byte.x00], None);
   ([Byte.x01; Byte.x02; Byte.x03; Byte.x04; Byte.x05], None)].

(** A stream whose header declares size 0, followed by one more byte. *)
Definition zero_size_stream : io.Reader :=
  [(repeat Byte.x00 16, None); ([Byte.x01], None)].

(** ** Decoding a message out of a frame *)

(** The decoding half of the [message] interface, as far as [Frame.read]
    uses it: [msg.read(r)] drives the read cursor it is handed, updates the
    message and returns an error or [nil]. *)
Class decoder (M : Type) : Type :=
  msg_read : M -> State ReadBuffer (M * option error).

(** [Frame.read]: the read cursor wraps the sized payload view. *)
Definition Frame_read {M} `{decoder M} (f : Frame) (msg : M)
  : Frame * result (M * option error) :=
  match SizedPayload f with
  | (f', Returned p) =>
      let '(m, e, _) := msg_read msg (ReadBuffer_Wrap p) in
      (f', Returned (m, e))
  | (f', Panic) => (f', Panic)
  | (f', Diverge) => (f', Diverge)
  end.

(** [Frame.messageType]. *)
Definition Frame_messageType (f : Frame) : byte := messageType (Header f).

(** A decoder that takes a fixed number of bytes off the cursor. *)
Record rawDecoder : Type := mkRawDecoder {
  want : nat;
  got : list byte
}.

#[export] Instance rawDecoder_decoder : decoder rawDecoder :=
  fun d =>
    (b <- ReadBytes (want d) ;;
     e <- ReadBuffer_Err ;;
     ret ({| want := want d; got := match b with Some bs => bs | None => [] end |}, e))%state.

(** A writer whose every [Write] fails, having taken [taken] bytes. *)
Record brokenPipe : Type := mkBrokenPipe {
  taken : Z;
  pipe_error : error
}.

#[export] Instance brokenPipe_Writer : io.Writer brokenPipe :=
  fun w p => (w, (taken w, Some (pipe_error w))).

(** The capacities a frame made by [NewFrame] can have: 1024 doubled at most
    six times. *)
Definition doubled_capacity (f : Frame) : Prop :=
  exists k : nat, (k <= 6)%nat /\ capacity f = initialPayloadCapacity * 2 ^ Z.of_nat k.

(** One frame used for a sequence of [ReadIn] calls, one per reader. *)
Fixpoint ReadIn_all (f : Frame) (rs : list io.Reader) : Frame :=
  match rs with
  | [] => f
  | r :: rs' => ReadIn_all (fst (fst (ReadIn f r))) rs'
  end.

(** ** More sample values *)

(** A stream that ends after three bytes. *)
Definition truncated_header_stream : io.Reader :=
  [([Byte.x00; Byte.x10], None); ([Byte.x07], None)].

(** The frame of the end-to-end example, encoded and not yet written. *)
Definition sample_frame : Frame := fst (Frame_write fresh_frame sample_message).

(** A header that declares 100 payload bytes, then ten bytes, then the end. *)
Definition truncated_payload_stream : io.Reader :=
  [(firstn 16 sample_wire, None); (firstn 10 sample_payload, None)].

(** A frame from [NewFrame] whose header holds a size field of 5, as a
    header read from the wire can. *)
Definition undersized_frame : Frame :=
  {| buffer := buffer fresh_frame;
     Header := {| size := 5; messageType := Byte.x07; reserved1 := Byte.x00; ID := 42;
                  reserved := byte8_zero |} |}.

(** A writer that fails every call. *)
Definition broken_pipe : brokenPipe := {| taken := 3; pipe_error := StreamError 32 |}.

(** * Properties *)

(** ** Integers and byte order *)

Lemma u16_small (z : Z) : 0 <= z < 65536 -> u16 z = z.
Proof. intros H. unfold u16. apply Z.mod_small. exact H. Qed.

Lemma u16_range (z : Z) : 0 <= u16 z < 65536.
Proof. unfold u16. apply Z.mod_pos_bound. reflexivity. Qed.

Lemma lor_shiftl_add (lo hi n : Z) :
  0 <= n -> 0 <= lo < 2 ^ n -> Z.lor lo (Z.shiftl hi n) = lo + hi * 2 ^ n.
Proof.
  intros Hn Hlo.
  rewrite <- Z.shiftl_mul_pow2 by assumption.
  rewrite <- Z.lxor_lor, <- Z.add_nocarry_lxor; trivial.
  all: apply Z.bits_inj'; intros i Hi; rewrite Z.land_spec, Z.bits_0.
  all: destruct (Z.ltb_spec i n) as [Hlt|Hge].
  all: try (rewrite (Z.shiftl_spec_low hi n i Hlt); apply andb_false_r).
  all: replace (Z.testbit lo i) with false; trivial.
  all: symmetry; destruct (Z.eq_dec lo 0) as [->|Hnz]; [apply Z.bits_0|].
  all: apply Z.bits_above_log2; [lia|].
  all: apply Z.log2_lt_pow2; [lia|].
  all: apply Z.lt_le_trans with (2 ^ n); [lia|apply Z.pow_le_mono_r; lia].
Qed.

Lemma Uint16_PutUint16 (v : Z) : 0 <= v < 2 ^ 16 -> Uint16 (PutUint16 v) = v.
Proof.
  intros Hv. unfold Uint16, PutUint16.
  rewrite !byte.unsigned_of_Z. unfold byte.wrap.
  rewrite lor_shiftl_add by (try lia; apply Z.mod_pos_bound; lia).
  rewrite Z.shiftr_div_pow2 by lia.
  change (2 ^ 8) with 256 in *. change (2 ^ 16) with 65536 in *.
  rewrite (Z.mod_small (v / 256))
    by (split; [apply Z.div_pos; lia | apply Z.div_lt_upper_bound; lia]).
  pose proof (Z.div_mod v 256). lia.
Qed.

Lemma Uint32_PutUint32 (v : Z) : 0 <= v < 2 ^ 32 -> Uint32 (PutUint32 v) = v.
Proof.
  intros Hv. unfold Uint32, PutUint32.
  rewrite !byte.unsigned_of_Z. unfold byte.wrap.
  rewrite !Z.shiftr_div_pow2 by lia.
  change (2 ^ 32) with 4294967296 in *.
  pose proof (Z.mod_pos_bound v 256 ltac:(lia)).
  pose proof (Z.mod_pos_bound (v / 256) 256 ltac:(lia)).
  pose proof (Z.mod_pos_bound (v / 65536) 256 ltac:(lia)).
  rewrite (lor_shiftl_add _ _ 8) by (change (2 ^ 8) with 256; lia).
  change (2 ^ 8) with 256 in *.
  rewrite (lor_shiftl_add _ _ 16) by (change (2 ^ 16) with 65536; lia).
  change (2 ^ 16) with 65536 in *.
  rewrite (lor_shiftl_add _ _ 24) by (change (2 ^ 24) with 16777216; lia).
  change (2 ^ 24) with 16777216 in *.
  rewrite (Z.mod_small (v / 16777216))
    by (split; [apply Z.div_pos; lia | apply Z.div_lt_upper_bound; lia]).
  pose proof (Z.div_mod v 256 ltac:(lia)).
  pose proof (Z.div_mod (v / 256) 256 ltac:(lia)).
  pose proof (Z.div_mod (v / 65536) 256 ltac:(lia)).
  replace (v / 65536) with (v / 256 / 256) in *
    by (rewrite Z.div_div by lia; reflexivity).
  replace (v / 16777216) with (v / 256 / 256 / 256) in *
    by (rewrite !Z.div_div by lia; reflexivity).
  lia.
Qed.

(** ** The size accessors *)

Lemma PayloadSize_valid (fh : FrameHeader) :
  16 <= size fh <= 65535 -> PayloadSize fh = size fh - 16.
Proof.
  intros H. unfold PayloadSize, FrameHeaderSize. apply u16_small. lia.
Qed.

Lemma PayloadSize_wraps (fh : FrameHeader) :
  0 <= size fh < 16 -> PayloadSize fh = size fh + 65520.
Proof.
  intros H. unfold PayloadSize, FrameHeaderSize, u16.
  change (2 ^ 16) with 65536.
  replace (size fh - 16) with (size fh + 65520 + (-1) * 65536) by lia.
  rewrite Z.mod_add by lia. apply Z.mod_small. lia.
Qed.

(** [16 + PayloadSize()], taken in [uint16], is the [size] field again. *)
Lemma needed_is_size (fh : FrameHeader) :
  0 <= size fh < 65536 -> u16 (FrameHeaderSize + PayloadSize fh) = size fh.
Proof.
  intros H. unfold PayloadSize, FrameHeaderSize, u16.
  rewrite Z.add_mod_idemp_r by (change (2 ^ 16) with 65536; lia).
  replace (16 + (size fh - 16)) with (size fh) by lia.
  apply Z.mod_small. exact H.
Qed.

Lemma SetPayloadSize_size (fh : FrameHeader) (L : Z) :
  0 <= L <= 65519 -> size (SetPayloadSize fh L) = L + 16.
Proof.
  intros HL. unfold SetPayloadSize, FrameHeaderSize. cbn [size].
  apply u16_small. lia.
Qed.

(** C7.  For every payload length [L] in [0, 65519], after
    [SetPayloadSize(L)] the stored size is [L + 16], [PayloadSize()] returns
    [L] and [FrameSize()] returns [L + 16]. *)
Theorem SetPayloadSize_PayloadSize (fh : FrameHeader) (L : Z) :
  0 <= L <= 65519 ->
  size (SetPayloadSize fh L) = L + 16 /\
  PayloadSize (SetPayloadSize fh L) = L /\
  FrameSize (SetPayloadSize fh L) = L + 16.
Proof.
  intros HL.
  pose proof (SetPayloadSize_size fh L HL) as Hs.
  split; [exact Hs|]. split.
  - rewrite PayloadSize_valid; rewrite Hs; lia.
  - unfold FrameSize. exact Hs.
Qed.

Lemma SetPayloadSize_PayloadSize_witness :
  0 <= 100 <= 65519 /\
  size (SetPayloadSize FrameHeader_zero 100) = 100 + 16 /\
  PayloadSize (SetPayloadSize FrameHeader_zero 100) = 100 /\
  FrameSize (SetPayloadSize FrameHeader_zero 100) = 100 + 16.
Proof.
  split; [lia | apply (SetPayloadSize_PayloadSize FrameHeader_zero 100); lia].
Defined.

(** ** The header codec *)

Lemma length16_inv (l : list byte) :
  length l = 16%nat ->
  exists b0 b1 b2 b3 b4 b5 b6 b7 b8 b9 b10 b11 b12 b13 b14 b15,
    l = [b0; b1; b2; b3; b4; b5; b6; b7; b8; b9; b10; b11; b12; b13; b14; b15].
Proof.
  intros H.
  do 16 (destruct l as [|? l]; [discriminate H|]).
  destruct l; [|discriminate H].
  repeat eexists.
Qed.

Lemma header_bytes_length (fh : FrameHeader) : length (header_bytes fh) = 16%nat.
Proof.
  unfold header_bytes. destruct (reserved fh) as [[[[[[[a0 a1] a2] a3] a4] a5] a6] a7].
  reflexivity.
Qed.

(** Encoding into a sixteen-byte slice fills it with [header_bytes]. *)
Lemma FrameHeader_write_16 (fh : FrameHeader) (buf : list byte) :
  length buf = 16%nat ->
  FrameHeader_write fh (WriteBuffer_Wrap buf)
  = (None, {| wb_buffer := header_bytes fh; wb_pos := 16; wb_err := None |}).
Proof.
  intros H. apply length16_inv in H.
  destruct H as (b0 & b1 & b2 & b3 & b4 & b5 & b6 & b7 & b8 & b9 & b10 & b11
                 & b12 & b13 & b14 & b15 & ->).
  unfold header_bytes.
  destruct (reserved fh) as [[[[[[[a0 a1] a2] a3] a4] a5] a6] a7] eqn:Hr.
  unfold FrameHeader_write. rewrite Hr. reflexivity.
Qed.

(** Decoding from a cursor with sixteen bytes left succeeds. *)
Lemma FrameHeader_read_16 (old : FrameHeader) (b wire : list byte) :
  length wire = 16%nat ->
  FrameHeader_read old {| rb_buffer := b; rb_remaining := wire; rb_err := None |}
  = (header_of_bytes old wire, None,
     {| rb_buffer := b; rb_remaining := []; rb_err := None |}).
Proof.
  intros H. apply length16_inv in H.
  destruct H as (b0 & b1 & b2 & b3 & b4 & b5 & b6 & b7 & b8 & b9 & b10 & b11
                 & b12 & b13 & b14 & b15 & ->).
  reflexivity.
Qed.

Lemma header_of_bytes_header_bytes (old fh : FrameHeader) :
  0 <= size fh < 2 ^ 16 -> 0 <= ID fh < 2 ^ 32 ->
  header_of_bytes old (header_bytes fh)
  = {| size := size fh; messageType := messageType fh; reserved1 := reserved1 fh;
       ID := ID fh; reserved := reserved old |}.
Proof.
  intros Hs Hi. unfold header_of_bytes, header_bytes.
  destruct (reserved fh) as [[[[[[[a0 a1] a2] a3] a4] a5] a6] a7].
  change (firstn 2 _) with (PutUint16 (size fh)).
  change (firstn 4 _) with (PutUint32 (ID fh)).
  rewrite Uint16_PutUint16, Uint32_PutUint32 by assumption.
  reflexivity.
Qed.

(** C2.  A header with message type [mt], id [id] in [0, 2^32 - 1] and
    size [L + 16] for a payload length [L] in [0, 65519], written to a
    sixteen-byte buffer and read back from those sixteen bytes, gives a header
    with the same message type, the same id and [PayloadSize() = L]; neither
    operation reports an error. *)
Theorem header_write_read_roundtrip
    (mt r1 : byte) (rs : byte8) (id L : Z) (buf : list byte) (old : FrameHeader) :
  0 <= id < 2 ^ 32 ->
  0 <= L <= 65519 ->
  length buf = 16%nat ->
  exists w fh' rb,
    FrameHeader_write
      {| size := L + 16; messageType := mt; reserved1 := r1; ID := id; reserved := rs |}
      (WriteBuffer_Wrap buf) = (None, w) /\
    length (wb_buffer w) = 16%nat /\
    FrameHeader_read old (ReadBuffer_Wrap (wb_buffer w)) = (fh', None, rb) /\
    messageType fh' = mt /\ ID fh' = id /\ PayloadSize fh' = L.
Proof.
  intros Hid HL Hbuf.
  set (fh := {| size := L + 16; messageType := mt; reserved1 := r1; ID := id;
                reserved := rs |}).
  exists {| wb_buffer := header_bytes fh; wb_pos := 16; wb_err := None |}.
  exists (header_of_bytes old (header_bytes fh)).
  exists {| rb_buffer := header_bytes fh; rb_remaining := []; rb_err := None |}.
  split; [apply FrameHeader_write_16; exact Hbuf|].
  split; [apply header_bytes_length|].
  split; [apply FrameHeader_read_16, header_bytes_length|].
  rewrite header_of_bytes_header_bytes by (subst fh; cbn [size ID]; lia).
  split; [reflexivity|]. split; [reflexivity|].
  rewrite PayloadSize_valid; subst fh; cbn [size]; lia.
Qed.

Lemma header_write_read_roundtrip_witness :
  exists w fh' rb,
    FrameHeader_write
      {| size := 100 + 16; messageType := Byte.x07; reserved1 := Byte.x00; ID := 42;
         reserved := byte8_zero |}
      (WriteBuffer_Wrap (repeat Byte.x00 16)) = (None, w) /\
    length (wb_buffer w) = 16%nat /\
    FrameHeader_read FrameHeader_zero (ReadBuffer_Wrap (wb_buffer w)) = (fh', None, rb) /\
    messageType fh' = Byte.x07 /\ ID fh' = 42 /\ PayloadSize fh' = 100.
Proof.
  apply (header_write_read_roundtrip Byte.x07 Byte.x00 byte8_zero 42 100
           (repeat Byte.x00 16) FrameHeader_zero).
  - change (2 ^ 32) with 4294967296. lia.
  - lia.
  - reflexivity.
Defined.

(** C3, as stated, fails: a header populated by [read] from wire bytes whose
    byte 3 is [0x09] is written back with byte 3 equal to [0x09]; and a header
    whose [reserved] array holds [0x01] is written with bytes 8 to 15 not
    zero. *)
Lemma header_write_reserved_not_zeroed :
  nth 3 (wb_buffer (snd (FrameHeader_write
           (fst (fst (FrameHeader_read FrameHeader_zero
                        (ReadBuffer_Wrap wire_with_reserved))))
           (WriteBuffer_Wrap (repeat Byte.x00 16))))) Byte.x00 = Byte.x09
  /\ skipn 8 (wb_buffer (snd (FrameHeader_write
           {| size := 16; messageType := Byte.x07; reserved1 := Byte.x00; ID := 42;
              reserved := (Byte.x01, Byte.x00, Byte.x00, Byte.x00,
                           Byte.x00, Byte.x00, Byte.x00, Byte.x00) |}
           (WriteBuffer_Wrap (repeat Byte.x00 16)))))
     <> repeat Byte.x00 8.
Proof.
  split.
  - vm_compute. reflexivity.
  - vm_compute. discriminate.
Qed.

(** C3, amended.  [write] serializes byte 3 from the header's [reserved1]
    field and bytes 8 to 15 from its [reserved] array, so those bytes are zero
    in the output exactly when the fields are zero.  [read] stores wire byte 3
    in [reserved1] and consumes wire bytes 8 to 15 without storing them:
    [reserved] keeps the value it had. *)
Theorem header_write_reserved_from_fields (fh : FrameHeader) (buf : list byte) :
  length buf = 16%nat ->
  (exists w,
     FrameHeader_write fh (WriteBuffer_Wrap buf) = (None, w) /\
     nth 3 (wb_buffer w) Byte.x00 = reserved1 fh /\
     skipn 8 (wb_buffer w) = byte8_slice (reserved fh)) /\
  (exists fh' rb,
     FrameHeader_read fh (ReadBuffer_Wrap buf) = (fh', None, rb) /\
     reserved1 fh' = nth 3 buf Byte.x00 /\
     reserved fh' = reserved fh).
Proof.
  intros Hbuf. split.
  - exists {| wb_buffer := header_bytes fh; wb_pos := 16; wb_err := None |}.
    split; [apply FrameHeader_write_16; exact Hbuf|].
    unfold header_bytes. cbn [wb_buffer].
    destruct (reserved fh) as [[[[[[[a0 a1] a2] a3] a4] a5] a6] a7].
    split; reflexivity.
  - exists (header_of_bytes fh buf).
    exists {| rb_buffer := buf; rb_remaining := []; rb_err := None |}.
    split; [apply FrameHeader_read_16; exact Hbuf|].
    split; reflexivity.
Qed.

Lemma header_write_reserved_from_fields_witness :
  (exists w,
     FrameHeader_write FrameHeader_zero (WriteBuffer_Wrap wire_with_reserved) = (None, w) /\
     nth 3 (wb_buffer w) Byte.x00 = reserved1 FrameHeader_zero /\
     skipn 8 (wb_buffer w) = byte8_slice (reserved FrameHeader_zero)) /\
  (exists fh' rb,
     FrameHeader_read FrameHeader_zero (ReadBuffer_Wrap wire_with_reserved)
     = (fh', None, rb) /\
     reserved1 fh' = nth 3 wire_with_reserved Byte.x00 /\
     reserved fh' = reserved FrameHeader_zero).
Proof.
  apply (header_write_reserved_from_fields FrameHeader_zero wire_with_reserved).
  reflexivity.
Defined.

(** ** Streams *)

(** [fill] is the loop of [io.ReadAtLeast] over [Read]: one call, then the
    loop again for what is still missing, unless the call reported an
    error. *)
Lemma fill_Read_loop (r : io.Reader) (n : nat) :
  io.fill r (S n)
  = let '(c, e, r1) := io.Read (S n) r in
    match e with
    | Some _ => (c, e, r1)
    | None => let '(d, e', r2) := io.fill r1 (S n - length c) in (c ++ d, e', r2)
    end.
Proof.
  destruct r as [|[c oe] r]; [reflexivity|].
  cbn [io.fill io.Read].
  destruct (Nat.leb_spec (length c) (S n)) as [Hle|Hgt].
  - destruct oe; reflexivity.
  - rewrite length_firstn, Nat.min_l, Nat.sub_diag by lia.
    cbn [io.fill]. rewrite app_nil_r. reflexivity.
Qed.

Lemma fill_enough (r : io.Reader) : forall n : nat,
  (n <= length (io.delivered r))%nat ->
  exists e r', io.fill r n = (firstn n (io.delivered r), e, r').
Proof.
  induction r as [|[c oe] r IH]; intros n Hn.
  - cbn in Hn. assert (n = 0%nat) as -> by lia. cbn. eauto.
  - destruct n as [|n]; [cbn; eauto|].
    cbn [io.fill]. destruct (Nat.leb_spec (length c) (S n)) as [Hle|Hgt].
    + destruct oe as [e|].
      * cbn [io.delivered] in *. assert (length c = S n) by lia.
        rewrite firstn_all2 by lia. eauto.
      * cbn [io.delivered] in *. rewrite length_app in Hn.
        destruct (IH (S n - length c)%nat ltac:(lia)) as (e & r' & ->).
        rewrite firstn_app, (firstn_all2 c) by lia. eauto.
    + exists None. eexists. f_equal. f_equal.
      destruct oe; cbn [io.delivered]; [reflexivity|].
      rewrite firstn_app. replace (S n - length c)%nat with 0%nat by lia.
      cbn. rewrite app_nil_r. reflexivity.
Qed.

Lemma fill_rest (r : io.Reader) : forall n : nat,
  (n < length (io.delivered r))%nat ->
  io.delivered (snd (io.fill r n)) = skipn n (io.delivered r).
Proof.
  induction r as [|[c oe] r IH]; intros n Hn.
  - cbn in Hn. lia.
  - destruct n as [|n]; [reflexivity|].
    cbn [io.fill]. destruct (Nat.leb_spec (length c) (S n)) as [Hle|Hgt].
    + destruct oe as [e|]; cbn [io.delivered] in *; [lia|].
      rewrite length_app in Hn.
      specialize (IH (S n - length c)%nat ltac:(lia)).
      destruct (io.fill r (S n - length c)) as [[d e] r'].
      cbn [snd] in *. rewrite IH, skipn_app, (skipn_all2 c) by lia. reflexivity.
    + cbn [snd io.delivered]. destruct oe; [reflexivity|].
      rewrite skipn_app. replace (S n - length c)%nat with 0%nat by lia.
      reflexivity.
Qed.

Lemma fill_short (r : io.Reader) : forall n : nat,
  (length (io.delivered r) < n)%nat ->
  exists e r', io.fill r n = (io.delivered r, Some e, r').
Proof.
  induction r as [|[c oe] r IH]; intros n Hn.
  - destruct n; [cbn in Hn; lia|]. cbn. eauto.
  - destruct n as [|n]; [lia|].
    cbn [io.fill]. cbn [io.delivered] in Hn.
    destruct oe as [e|].
    + destruct (Nat.leb_spec (length c) (S n)) as [Hle|Hgt]; [|lia]. cbn. eauto.
    + rewrite length_app in Hn.
      destruct (Nat.leb_spec (length c) (S n)) as [Hle|Hgt]; [|lia].
      destruct (IH (S n - length c)%nat ltac:(lia)) as (e & r' & ->).
      cbn. eauto.
Qed.

Lemma ReadFull_enough (r : io.Reader) (n : nat) :
  (n <= length (io.delivered r))%nat ->
  exists r', io.ReadFull r n = (firstn n (io.delivered r), None, r').
Proof.
  intros Hn. unfold io.ReadFull.
  destruct (fill_enough r n Hn) as (e & r' & ->).
  rewrite length_firstn, Nat.min_l by lia. rewrite Nat.leb_refl. eauto.
Qed.

Lemma ReadFull_rest (r : io.Reader) (n : nat) :
  (n < length (io.delivered r))%nat ->
  io.delivered (snd (io.ReadFull r n)) = skipn n (io.delivered r).
Proof.
  intros Hn. rewrite <- (fill_rest r n Hn). unfold io.ReadFull.
  destruct (io.fill r n) as [[d e] r']. reflexivity.
Qed.

Lemma ReadFull_short (r : io.Reader) (n : nat) :
  (length (io.delivered r) < n)%nat ->
  exists e r', io.ReadFull r n = (io.delivered r, Some e, r').
Proof.
  intros Hn. unfold io.ReadFull.
  destruct (fill_short r n Hn) as (e & r' & ->).
  destruct (Nat.leb_spec n (length (io.delivered r))) as [H|H]; [lia|].
  destruct e; eauto. destruct (0 <? length (io.delivered r))%nat; eauto.
Qed.

(** ** Buffer growth *)

Lemma Uint16_range (l : list byte) : 0 <= Uint16 l < 65536.
Proof.
  unfold Uint16.
  destruct l as [|b0 [|b1 [|b2 l]]]; try lia.
  pose proof (byte.unsigned_range b0). pose proof (byte.unsigned_range b1).
  change (2 ^ 8) with 256 in *.
  rewrite lor_shiftl_add by (change (2 ^ 8) with 256; lia).
  change (2 ^ 8) with 256. lia.
Qed.

Lemma double_until_spec (fuel : nat) : forall sz needed : Z,
  1 <= sz -> needed <= sz * 2 ^ Z.of_nat fuel ->
  exists k : nat,
    (k <= fuel)%nat /\
    double_until fuel sz needed = Some (sz * 2 ^ Z.of_nat k) /\
    needed <= sz * 2 ^ Z.of_nat k /\
    (forall j : nat, (j < k)%nat -> sz * 2 ^ Z.of_nat j < needed).
Proof.
  induction fuel as [|fuel IH]; intros sz needed Hsz Hfuel.
  - exists 0%nat. cbn [double_until]. change (2 ^ Z.of_nat 0) with 1 in *.
    destruct (Z.ltb_spec sz needed) as [H|H]; [lia|].
    rewrite Z.mul_1_r. repeat split; intros; lia.
  - cbn [double_until]. destruct (Z.ltb_spec sz needed) as [H|H].
    + rewrite Z.shiftl_mul_pow2 by lia. change (2 ^ 1) with 2.
      rewrite Nat2Z.inj_succ, Z.pow_succ_r in Hfuel by lia.
      destruct (IH (sz * 2) needed ltac:(lia) ltac:(lia)) as (k & Hk & Heq & Hge & Hmin).
      exists (S k). rewrite Nat2Z.inj_succ, Z.pow_succ_r by lia.
      replace (sz * (2 * 2 ^ Z.of_nat k)) with (sz * 2 * 2 ^ Z.of_nat k) by lia.
      repeat split; try assumption; try lia.
      intros [|j] Hj.
      * change (2 ^ Z.of_nat 0) with 1. lia.
      * rewrite Nat2Z.inj_succ, Z.pow_succ_r by lia.
        specialize (Hmin j ltac:(lia)). lia.
    + exists 0%nat. change (2 ^ Z.of_nat 0) with 1. rewrite Z.mul_1_r.
      repeat split; intros; lia.
Qed.

Lemma double_until_zero (fuel : nat) (needed : Z) :
  0 < needed -> double_until fuel 0 needed = None.
Proof.
  intros H. induction fuel as [|fuel IH]; cbn [double_until].
  - destruct (Z.ltb_spec 0 needed); [reflexivity|lia].
  - destruct (Z.ltb_spec 0 needed); [exact IH|lia].
Qed.

Lemma updateBufferSize_grow (f : Frame) (n : Z) :
  16 <= n -> capacity f <= n ->
  updateBufferSize f n
  = Returned {| buffer := buffer f ++ repeat Byte.x00 (Z.to_nat n - length (buffer f));
                Header := Header f |}.
Proof.
  intros Hn Hcap. unfold updateBufferSize, FrameHeaderSize, capacity in *.
  destruct (Z.ltb_spec n 0); [lia|]. destruct (Z.ltb_spec n 16); [lia|].
  rewrite firstn_all2 by lia. reflexivity.
Qed.

Lemma payload_slice_fits (f : Frame) :
  16 <= size (Header f) <= capacity f -> size (Header f) <= 65535 ->
  payload_slice f
  = Returned (firstn (Z.to_nat (size (Header f) - 16)) (Payload f)).
Proof.
  intros H H'. unfold payload_slice. rewrite PayloadSize_valid by lia.
  unfold Payload, capacity in *. rewrite length_skipn.
  destruct (Z.leb_spec (size (Header f) - 16) (Z.of_nat (length (buffer f) - 16))); [reflexivity|lia].
Qed.

Lemma SizedPayload_fits (f : Frame) :
  16 <= size (Header f) <= capacity f -> size (Header f) <= 65535 ->
  SizedPayload f = (f, Returned (firstn (Z.to_nat (size (Header f) - 16)) (Payload f))).
Proof.
  intros H H'. unfold SizedPayload. rewrite needed_is_size by lia.
  destruct (Z.ltb_spec (capacity f) (size (Header f))); [lia|].
  rewrite payload_slice_fits by lia. reflexivity.
Qed.

Lemma SizedPayload_grows (f : Frame) :
  16 <= capacity f -> capacity f < size (Header f) <= 65535 ->
  exists k : nat,
    (0 < k)%nat /\
    size (Header f) <= capacity f * 2 ^ Z.of_nat k /\
    (forall j : nat, (j < k)%nat -> capacity f * 2 ^ Z.of_nat j < size (Header f)) /\
    let f' := {| buffer := buffer f ++ repeat Byte.x00
                             (Z.to_nat (capacity f * 2 ^ Z.of_nat k) - length (buffer f));
                 Header := Header f |} in
    capacity f' = capacity f * 2 ^ Z.of_nat k /\
    SizedPayload f
    = (f', Returned (firstn (Z.to_nat (size (Header f) - 16)) (Payload f'))).
Proof.
  intros Hcap Hsz. unfold SizedPayload. rewrite needed_is_size by lia.
  destruct (Z.ltb_spec (capacity f) (size (Header f))) as [_|]; [|lia].
  destruct (double_until_spec 16 (capacity f) (size (Header f)) ltac:(lia))
    as (k & Hk & -> & Hge & Hmin).
  { change (2 ^ Z.of_nat 16) with 65536. lia. }
  exists k.
  assert (Hpow : 1 <= 2 ^ Z.of_nat k) by (apply (Z.pow_le_mono_r 2 0); lia).
  assert (Hk0 : (0 < k)%nat).
  { destruct k; [|lia]. change (2 ^ Z.of_nat 0) with 1 in Hge. lia. }
  split; [exact Hk0|]. split; [exact Hge|]. split; [exact Hmin|].
  cbv zeta.
  assert (Hc : capacity {| buffer := buffer f ++ repeat Byte.x00
                             (Z.to_nat (capacity f * 2 ^ Z.of_nat k) - length (buffer f));
                           Header := Header f |} = capacity f * 2 ^ Z.of_nat k).
  { unfold capacity at 1. cbn [buffer]. rewrite length_app, repeat_length.
    unfold capacity in *. nia. }
  split; [exact Hc|].
  rewrite updateBufferSize_grow by nia.
  rewrite payload_slice_fits; cbn [Header]; try rewrite Hc; try lia.
  reflexivity.
Qed.

(** C6, at a frame of capacity 1024 whose header holds a size field of 5:
    the payload declared, 65525 bytes, is larger than the buffer, yet
    [SizedPayload] does not grow the buffer; the capacity needed is computed
    in sixteen bits and wraps back to 5, the frame is left as it was and
    slicing the payload view panics.  The same happens on the frame
    [NewFrame] returns, whose size field is 0 (65520 bytes declared). *)
Theorem SizedPayload_undersized_header_no_growth :
  PayloadSize (Header undersized_frame) = 65525 /\
  capacity undersized_frame = 1024 /\
  u16 (FrameHeaderSize + PayloadSize (Header undersized_frame)) = 5 /\
  SizedPayload undersized_frame = (undersized_frame, Panic) /\
  PayloadSize (Header fresh_frame) = 65520 /\
  SizedPayload fresh_frame = (fresh_frame, Panic).
Proof.
  repeat split; vm_compute; reflexivity.
Qed.

(** X27.  For a frame with a header view and a valid size field (16 to
    65535) whose header plus payload exceed the capacity of the buffer,
    [SizedPayload] replaces the buffer by one whose capacity is the current
    capacity doubled [k] times, for the least [k] that makes header plus
    payload fit; the old bytes are the prefix of the new buffer, the new bytes
    are zero, the sixteen header bytes and the payload bytes are unchanged,
    and the payload view returned is a view of the new buffer. *)
Theorem SizedPayload_growth (f : Frame) :
  16 <= capacity f ->
  16 <= size (Header f) <= 65535 ->
  capacity f < FrameHeaderSize + PayloadSize (Header f) ->
  exists (k : nat) (f' : Frame),
    SizedPayload f
    = (f', Returned (firstn (Z.to_nat (PayloadSize (Header f))) (Payload f'))) /\
    (0 < k)%nat /\
    capacity f' = capacity f * 2 ^ Z.of_nat k /\
    FrameHeaderSize + PayloadSize (Header f) <= capacity f' /\
    (forall j : nat, (j < k)%nat ->
       capacity f * 2 ^ Z.of_nat j < FrameHeaderSize + PayloadSize (Header f)) /\
    buffer f' = buffer f ++ repeat Byte.x00 (length (buffer f') - length (buffer f)) /\
    headerBuffer f' = headerBuffer f /\
    firstn (length (Payload f)) (Payload f') = Payload f /\
    Header f' = Header f.
Proof.
  intros Hcap Hsz Hlt. unfold FrameHeaderSize in *.
  rewrite PayloadSize_valid in * by lia.
  replace (16 + (size (Header f) - 16)) with (size (Header f)) in * by lia.
  destruct (SizedPayload_grows f Hcap ltac:(lia)) as (k & Hk & Hge & Hmin & Hc & Heq).
  cbv zeta in Hc, Heq.
  set (n := (Z.to_nat (capacity f * 2 ^ Z.of_nat k) - length (buffer f))%nat) in *.
  exists k, {| buffer := buffer f ++ repeat Byte.x00 n; Header := Header f |}.
  split; [exact Heq|]. split; [exact Hk|]. split; [exact Hc|].
  split; [lia|]. split; [exact Hmin|].
  unfold capacity in Hcap. cbn [buffer Header]. repeat split.
  - rewrite length_app, repeat_length. f_equal. f_equal. lia.
  - unfold headerBuffer. cbn [buffer]. rewrite firstn_app.
    replace (16 - length (buffer f))%nat with 0%nat by lia.
    cbn [firstn]. apply app_nil_r.
  - unfold Payload. cbn [buffer]. rewrite skipn_app.
    replace (16 - length (buffer f))%nat with 0%nat by lia.
    cbn [skipn]. rewrite firstn_app, Nat.sub_diag, firstn_all. cbn [firstn].
    apply app_nil_r.
Qed.

Lemma SizedPayload_growth_witness :
  exists (k : nat) (f' : Frame),
    SizedPayload growing_frame
    = (f', Returned (firstn (Z.to_nat (PayloadSize (Header growing_frame))) (Payload f'))) /\
    (0 < k)%nat /\
    capacity f' = capacity growing_frame * 2 ^ Z.of_nat k /\
    FrameHeaderSize + PayloadSize (Header growing_frame) <= capacity f' /\
    (forall j : nat, (j < k)%nat ->
       capacity growing_frame * 2 ^ Z.of_nat j
       < FrameHeaderSize + PayloadSize (Header growing_frame)) /\
    buffer f' = buffer growing_frame
                  ++ repeat Byte.x00 (length (buffer f') - length (buffer growing_frame)) /\
    headerBuffer f' = headerBuffer growing_frame /\
    firstn (length (Payload growing_frame)) (Payload f') = Payload growing_frame /\
    Header f' = Header growing_frame.
Proof.
  apply (SizedPayload_growth growing_frame).
  - vm_compute. discriminate.
  - split; vm_compute; discriminate.
  - vm_compute. reflexivity.
Defined.

(** ** Reading a frame *)

Lemma store_at_0 (buf d : list byte) :
  store_at buf 0 d = d ++ skipn (length d) buf.
Proof. reflexivity. Qed.

Lemma headerBuffer_length (f : Frame) :
  16 <= capacity f -> length (headerBuffer f) = 16%nat.
Proof.
  unfold capacity, headerBuffer. intros H. rewrite length_firstn. lia.
Qed.

Lemma ReadIn_header_arrived (f : Frame) (r : io.Reader) :
  16 <= capacity f ->
  (16 <= length (io.delivered r))%nat ->
  ReadIn f r
  = read_payload
      {| buffer := firstn 16 (io.delivered r) ++ Payload f;
         Header := header_of_bytes (Header f) (firstn 16 (io.delivered r)) |}
      (snd (io.ReadFull r 16)).
Proof.
  intros Hcap Hlen. unfold ReadIn, FillFrom.
  cbn [ReadBuffer_Wrap rb_buffer].
  rewrite headerBuffer_length by exact Hcap. cbn [Nat.ltb Nat.leb].
  destruct (ReadFull_enough r 16 Hlen) as (r1 & ->). cbn [snd].
  set (wire := firstn 16 (io.delivered r)).
  assert (Hw : length wire = 16%nat) by (subst wire; rewrite length_firstn; lia).
  assert (Hs : store_at (headerBuffer f) 0 wire = wire).
  { rewrite store_at_0, Hw. unfold headerBuffer.
    rewrite skipn_all2 by (rewrite length_firstn; lia). apply app_nil_r. }
  rewrite Hs. cbn [rb_buffer].
  rewrite (firstn_all2 (n := 16) wire) by lia.
  rewrite store_at_0, Hw. cbn [Header].
  rewrite FrameHeader_read_16 by exact Hw.
  reflexivity.
Qed.

Lemma ReadIn_header_short (f : Frame) (r : io.Reader) :
  16 <= capacity f ->
  (length (io.delivered r) < 16)%nat ->
  exists e f' r',
    ReadIn f r = (f', r', Returned (Some e)) /\ Header f' = Header f /\
    capacity f' = capacity f.
Proof.
  intros Hcap Hlen. unfold ReadIn, FillFrom.
  cbn [ReadBuffer_Wrap rb_buffer].
  rewrite headerBuffer_length by exact Hcap. cbn [Nat.ltb Nat.leb].
  destruct (ReadFull_short r 16 Hlen) as (e & r1 & ->).
  do 3 eexists. split; [reflexivity|]. split; [reflexivity|].
  unfold capacity in *. cbn [buffer rb_buffer]. f_equal.
  rewrite !store_at_0. unfold headerBuffer.
  rewrite ?length_app, ?length_skipn, ?length_app, ?length_skipn, ?length_firstn.
  cbn [io.delivered] in *. lia.
Qed.

Lemma store_at_after (pre tail d : list byte) :
  store_at (pre ++ tail) (length pre) d = pre ++ d ++ skipn (length d) tail.
Proof.
  unfold store_at.
  rewrite firstn_app, Nat.sub_diag, firstn_all, firstn_O, app_nil_r.
  rewrite skipn_app, (skipn_all2 pre) by lia.
  replace (length pre + length d - length pre)%nat with (length d) by lia.
  reflexivity.
Qed.

Lemma store_at_16 (pre tail d : list byte) :
  length pre = 16%nat ->
  store_at (pre ++ tail) 16 d = pre ++ d ++ skipn (length d) tail.
Proof. intros <-. apply store_at_after. Qed.

Lemma SizedPayload_valid (f : Frame) :
  16 <= capacity f -> 16 <= size (Header f) <= 65535 ->
  exists k : nat,
    size (Header f) <= capacity f + Z.of_nat k /\
    SizedPayload f
    = ({| buffer := buffer f ++ repeat Byte.x00 k; Header := Header f |},
       Returned (firstn (Z.to_nat (size (Header f) - 16))
                        (Payload f ++ repeat Byte.x00 k))).
Proof.
  intros Hcap Hsz.
  assert (Hp : forall k, Payload {| buffer := buffer f ++ repeat Byte.x00 k;
                                    Header := Header f |}
                         = Payload f ++ repeat Byte.x00 k).
  { intros k. unfold Payload. cbn [buffer]. rewrite skipn_app.
    unfold capacity in Hcap.
    replace (16 - length (buffer f))%nat with 0%nat by lia. reflexivity. }
  destruct (Z.le_gt_cases (size (Header f)) (capacity f)) as [Hfit|Hgrow].
  - exists 0%nat. split; [lia|].
    rewrite SizedPayload_fits by lia. cbn [repeat]. rewrite !app_nil_r.
    destruct f; reflexivity.
  - destruct (SizedPayload_grows f Hcap ltac:(lia)) as (k & _ & Hge & _ & Hc & ->).
    eexists. rewrite Hp. split; [|reflexivity].
    unfold capacity in *. cbn [buffer] in Hc.
    rewrite length_app, repeat_length in Hc. lia.
Qed.

Lemma ReadIn_frame_arrived (f : Frame) (r : io.Reader) :
  16 <= capacity f ->
  (16 <= length (io.delivered r))%nat ->
  16 <= size (header_of_bytes (Header f) (firstn 16 (io.delivered r)))
     <= Z.of_nat (length (io.delivered r)) ->
  exists g r',
    ReadIn f r = (g, r', Returned None) /\
    Header g = header_of_bytes (Header f) (firstn 16 (io.delivered r)) /\
    headerBuffer g = firstn 16 (io.delivered r) /\
    SizedPayload g
    = (g, Returned (firstn (Z.to_nat (PayloadSize (Header g)))
                           (skipn 16 (io.delivered r)))).
Proof.
  intros Hcap Hlen Hsz.
  rewrite ReadIn_header_arrived by assumption.
  set (wire := firstn 16 (io.delivered r)) in *.
  set (h := header_of_bytes (Header f) wire) in *.
  assert (Hw : length wire = 16%nat) by (subst wire; rewrite length_firstn; lia).
  assert (Hh : size h <= 65535).
  { pose proof (Uint16_range (firstn 2 wire)). subst h. cbn [size header_of_bytes]. lia. }
  set (f2 := {| buffer := wire ++ Payload f; Header := h |}).
  assert (Hcap2 : capacity f2 = capacity f).
  { unfold capacity, f2, Payload in *. cbn [buffer].
    rewrite length_app, length_skipn. lia. }
  unfold read_payload. cbn [Header f2].
  rewrite (PayloadSize_valid h) by lia.
  destruct (Z.ltb_spec 0 (size h - 16)) as [Hpos|Hzero].
  - destruct (SizedPayload_valid f2 ltac:(lia) ltac:(cbn [Header f2]; lia))
      as (k & Hk & ->).
    cbn [Header buffer f2] in *.
    set (L := Z.to_nat (size h - 16)).
    assert (HL : (L <= length (Payload f2 ++ repeat Byte.x00 k))%nat).
    { rewrite length_app, repeat_length. unfold Payload, capacity in *.
      rewrite length_skipn. cbn [buffer f2] in *. lia. }
    rewrite length_firstn, Nat.min_l by exact HL.
    assert (Hrest : io.delivered (snd (io.ReadFull r 16)) = skipn 16 (io.delivered r)).
    { apply ReadFull_rest. lia. }
    destruct (ReadFull_enough (snd (io.ReadFull r 16)) L) as (r2 & ->).
    { rewrite Hrest, length_skipn. lia. }
    rewrite Hrest.
    set (p := firstn L (skipn 16 (io.delivered r))).
    assert (Hp : length p = L).
    { subst p. rewrite length_firstn, length_skipn. lia. }
    rewrite <- app_assoc. rewrite store_at_16 by exact Hw.
    eexists. eexists. split; [reflexivity|].
    cbn [Header]. split; [reflexivity|]. split.
    { unfold headerBuffer. cbn [buffer]. rewrite firstn_app, Hw, Nat.sub_diag.
      rewrite firstn_all2 by lia. cbn [firstn]. apply app_nil_r. }
    rewrite SizedPayload_fits; cbn [Header]; try lia.
    + rewrite (PayloadSize_valid h) by lia. fold L. f_equal. f_equal.
      unfold Payload. cbn [buffer].
      rewrite skipn_app, Hw, Nat.sub_diag, skipn_all2 by lia. cbn [skipn app].
      rewrite firstn_app, Hp, Nat.sub_diag, firstn_all2 by lia.
      cbn [firstn]. apply app_nil_r.
    + split; [lia|]. unfold capacity. cbn [buffer].
      rewrite !length_app, length_skipn, Hw, Hp, length_app, repeat_length.
      unfold capacity, Payload in *. cbn [buffer f2] in *.
      rewrite length_app, Hw in Hcap2. lia.
  - eexists. eexists. split; [reflexivity|].
    cbn [Header f2]. split; [reflexivity|]. split.
    { unfold headerBuffer. cbn [buffer f2]. rewrite firstn_app, Hw, Nat.sub_diag.
      rewrite firstn_all2 by lia. cbn [firstn]. apply app_nil_r. }
    rewrite SizedPayload_fits; cbn [Header f2]; try lia.
    rewrite (PayloadSize_valid h) by lia.
    replace (size h - 16) with 0 by lia. reflexivity.
Qed.

(** A valid header followed by a stream that ends or fails before the
    declared payload is complete: [ReadIn] returns the error. *)
Lemma ReadIn_payload_short (f : Frame) (r : io.Reader) :
  16 <= capacity f ->
  (16 <= length (io.delivered r))%nat ->
  16 < size (header_of_bytes (Header f) (firstn 16 (io.delivered r))) ->
  Z.of_nat (length (io.delivered (snd (io.ReadFull r 16))))
  < PayloadSize (header_of_bytes (Header f) (firstn 16 (io.delivered r))) ->
  exists e g r',
    ReadIn f r = (g, r', Returned (Some e)) /\
    Header g = header_of_bytes (Header f) (firstn 16 (io.delivered r)).
Proof.
  intros Hcap Hlen Hsz Hshort.
  rewrite ReadIn_header_arrived by assumption.
  set (wire := firstn 16 (io.delivered r)) in *.
  set (h := header_of_bytes (Header f) wire) in *.
  assert (Hw : length wire = 16%nat) by (subst wire; rewrite length_firstn; lia).
  assert (Hh : size h <= 65535).
  { pose proof (Uint16_range (firstn 2 wire)). subst h. cbn [size header_of_bytes]. lia. }
  set (f2 := {| buffer := wire ++ Payload f; Header := h |}).
  assert (Hcap2 : capacity f2 = capacity f).
  { unfold capacity, f2, Payload in *. cbn [buffer].
    rewrite length_app, length_skipn. lia. }
  unfold read_payload. cbn [Header f2].
  rewrite (PayloadSize_valid h) in * by lia.
  destruct (Z.ltb_spec 0 (size h - 16)) as [_|]; [|lia].
  destruct (SizedPayload_valid f2 ltac:(lia) ltac:(cbn [Header f2]; lia))
    as (k & Hk & ->).
  cbn [Header buffer f2] in *.
  rewrite length_firstn, Nat.min_l.
  - destruct (ReadFull_short (snd (io.ReadFull r 16)) (Z.to_nat (size h - 16)))
      as (e & r2 & ->); [lia|].
    do 3 eexists. split; reflexivity.
  - rewrite length_app, repeat_length. unfold Payload, capacity in *.
    rewrite length_skipn. cbn [buffer f2] in *. lia.
Qed.

(** C5, at a stream whose header declares size 5: the decoded payload
    length is 65525, and [ReadIn] on a fresh frame neither reads the payload
    nor returns an error; slicing the payload view panics, with the five
    bytes after the header still unread. *)
Theorem ReadIn_undersized_header_panics :
  snd (ReadIn fresh_frame undersized_stream) = Panic /\
  PayloadSize (Header (fst (fst (ReadIn fresh_frame undersized_stream)))) = 65525 /\
  snd (fst (ReadIn fresh_frame undersized_stream))
  = [([Byte.x01; Byte.x02; Byte.x03; Byte.x04; Byte.x05], None)].
Proof.
  repeat split; vm_compute; reflexivity.
Qed.

(** C9, at a stream whose header declares size 0: the payload length wraps
    to 65520, yet [ReadIn] on a fresh frame does not grow the buffer (its
    capacity is still 1024) and attempts no payload read (the byte after the
    header is still in the stream); the call panics. *)
Lemma ReadIn_zero_size_no_growth :
  snd (ReadIn fresh_frame zero_size_stream) = Panic /\
  PayloadSize (Header (fst (fst (ReadIn fresh_frame zero_size_stream)))) = 65520 /\
  capacity (fst (fst (ReadIn fresh_frame zero_size_stream))) = capacity fresh_frame /\
  snd (fst (ReadIn fresh_frame zero_size_stream)) = [([Byte.x01], None)].
Proof.
  repeat split; vm_compute; reflexivity.
Qed.

(** X28.  Nothing validates [size >= 16]: [FrameHeader.read]
    accepts the sixteen bytes, and for a size field below 16 [PayloadSize()]
    wraps to [size + 65520], at least 65520.  [ReadIn] does not reject such a
    header and [SizedPayload] does not grow the buffer for it: the capacity
    needed, [16 + PayloadSize()], is computed in the same sixteen-bit
    arithmetic and wraps back to [size].  On a frame whose capacity is below
    65536 the payload view is then sliced out of range: [ReadIn] panics after
    the header, with the buffer at its old capacity and no payload byte
    read. *)
Theorem ReadIn_undersized_header (f : Frame) (r : io.Reader) :
  16 <= capacity f < 65536 ->
  (16 <= length (io.delivered r))%nat ->
  size (header_of_bytes (Header f) (firstn 16 (io.delivered r))) < 16 ->
  exists h rb f' r',
    FrameHeader_read (Header f) (ReadBuffer_Wrap (firstn 16 (io.delivered r)))
    = (h, None, rb) /\
    PayloadSize h = size h + 65520 /\
    65520 <= PayloadSize h /\
    u16 (FrameHeaderSize + PayloadSize h) = size h /\
    fst (SizedPayload {| buffer := buffer f; Header := h |})
    = {| buffer := buffer f; Header := h |} /\
    ReadIn f r = (f', r', Panic) /\
    Header f' = h /\
    capacity f' = capacity f /\
    r' = snd (io.ReadFull r 16).
Proof.
  intros Hcap Hlen Hsz.
  set (wire := firstn 16 (io.delivered r)) in *.
  set (h := header_of_bytes (Header f) wire) in *.
  assert (Hw : length wire = 16%nat) by (subst wire; rewrite length_firstn; lia).
  assert (Hh : 0 <= size h < 16).
  { pose proof (Uint16_range (firstn 2 wire)). subst h.
    cbn [size header_of_bytes] in *. lia. }
  assert (Hp : PayloadSize h = size h + 65520) by (apply PayloadSize_wraps; exact Hh).
  assert (Hn : u16 (FrameHeaderSize + PayloadSize h) = size h)
    by (apply needed_is_size; lia).
  assert (Hno : forall b, 16 <= Z.of_nat (length b) < 65536 ->
                  SizedPayload {| buffer := b; Header := h |}
                  = ({| buffer := b; Header := h |}, Panic)).
  { intros b Hb. unfold SizedPayload, capacity. cbn [Header buffer]. rewrite Hn.
    destruct (Z.ltb_spec (Z.of_nat (length b)) (size h)); [lia|].
    unfold payload_slice, Payload. cbn [Header buffer]. rewrite Hp, length_skipn.
    destruct (Z.leb_spec (size h + 65520) (Z.of_nat (length b - 16))); [lia|].
    reflexivity. }
  exists h, {| rb_buffer := wire; rb_remaining := []; rb_err := None |}.
  eexists. eexists.
  split; [apply FrameHeader_read_16; exact Hw|].
  split; [exact Hp|]. split; [lia|]. split; [exact Hn|].
  split; [rewrite Hno by (unfold capacity in Hcap; lia); reflexivity|].
  rewrite ReadIn_header_arrived by lia. fold wire. fold h.
  unfold read_payload. cbn [Header]. rewrite Hp.
  destruct (Z.ltb_spec 0 (size h + 65520)); [|lia].
  rewrite Hno.
  - split; [reflexivity|]. cbn [Header]. split; [reflexivity|].
    split; [|reflexivity].
    unfold capacity, Payload in *. cbn [buffer].
    rewrite length_app, length_skipn, Hw. lia.
  - unfold capacity, Payload in *.
    rewrite length_app, length_skipn, Hw. lia.
Qed.

Lemma ReadIn_undersized_header_witness :
  exists h rb f' r',
    FrameHeader_read (Header fresh_frame)
      (ReadBuffer_Wrap (firstn 16 (io.delivered undersized_stream)))
    = (h, None, rb) /\
    PayloadSize h = size h + 65520 /\
    65520 <= PayloadSize h /\
    u16 (FrameHeaderSize + PayloadSize h) = size h /\
    fst (SizedPayload {| buffer := buffer fresh_frame; Header := h |})
    = {| buffer := buffer fresh_frame; Header := h |} /\
    ReadIn fresh_frame undersized_stream = (f', r', Panic) /\
    Header f' = h /\
    capacity f' = capacity fresh_frame /\
    r' = snd (io.ReadFull undersized_stream 16).
Proof.
  apply (ReadIn_undersized_header fresh_frame undersized_stream).
  - split; vm_compute; [discriminate | reflexivity].
  - apply Nat.leb_le. vm_compute. reflexivity.
  - vm_compute. reflexivity.
Defined.

(** ** Writing a frame, and reading it back *)

Lemma BytesWritten_range (w : WriteBuffer) :
  0 <= BytesWritten w <= Z.of_nat (length (wb_buffer w)).
Proof.
  unfold BytesWritten, wb_remaining. rewrite length_skipn. lia.
Qed.

Lemma NewFrame_fresh : NewFrame = Returned fresh_frame.
Proof. reflexivity. Qed.

Lemma fresh_frame_capacity : capacity fresh_frame = 1024.
Proof. reflexivity. Qed.

(** Encoding the header in place and handing the frame to an in-memory
    sink. *)
Lemma WriteOut_Buffer (f : Frame) (sink : io.Buffer) :
  16 <= capacity f ->
  0 <= size (Header f) <= capacity f ->
  WriteOut f sink
  = ({| buffer := header_bytes (Header f) ++ Payload f; Header := Header f |},
     sink ++ firstn (Z.to_nat (size (Header f))) (header_bytes (Header f) ++ Payload f),
     Returned None).
Proof.
  intros Hcap Hsz. unfold WriteOut.
  rewrite FrameHeader_write_16 by (apply headerBuffer_length; exact Hcap).
  cbn [wb_buffer]. rewrite store_at_0, header_bytes_length.
  fold (Payload f). cbn [Header]. unfold FrameSize.
  assert (Hc : capacity {| buffer := header_bytes (Header f) ++ Payload f;
                           Header := Header f |} = capacity f).
  { unfold capacity, Payload in *. cbn [buffer].
    rewrite length_app, header_bytes_length, length_skipn. lia. }
  rewrite Hc. destruct (Z.leb_spec (size (Header f)) (capacity f)); [|lia].
  reflexivity.
Qed.

(** A frame with a valid header, written to an in-memory sink and read
    back into a fresh frame from any reader that delivers those bytes. *)
Lemma frame_roundtrip (f : Frame) (r : io.Reader) :
  16 <= size (Header f) <= capacity f ->
  size (Header f) <= 65535 ->
  0 <= ID (Header f) < 2 ^ 32 ->
  exists f' out,
    WriteOut f ([] : io.Buffer) = (f', out, Returned None) /\
    length out = Z.to_nat (size (Header f)) /\
    out = header_bytes (Header f)
          ++ firstn (Z.to_nat (PayloadSize (Header f))) (Payload f) /\
    (io.delivered r = out ->
     exists g r',
       ReadIn fresh_frame r = (g, r', Returned None) /\
       size (Header g) = size (Header f) /\
       messageType (Header g) = messageType (Header f) /\
       ID (Header g) = ID (Header f) /\
       SizedPayload g
       = (g, Returned (firstn (Z.to_nat (PayloadSize (Header f))) (Payload f)))).
Proof.
  intros Hsz Hmax Hid.
  set (L := Z.to_nat (PayloadSize (Header f))).
  assert (HL : Z.of_nat L = size (Header f) - 16).
  { subst L. rewrite PayloadSize_valid by lia. lia. }
  assert (HP : (L <= length (Payload f))%nat).
  { unfold Payload, capacity in *. rewrite length_skipn. lia. }
  assert (Hout : firstn (Z.to_nat (size (Header f))) (header_bytes (Header f) ++ Payload f)
                 = header_bytes (Header f) ++ firstn L (Payload f)).
  { rewrite firstn_app, header_bytes_length.
    rewrite firstn_all2 by (rewrite header_bytes_length; lia).
    f_equal. f_equal. lia. }
  do 2 eexists. rewrite WriteOut_Buffer by lia. cbn [app]. rewrite Hout.
  split; [reflexivity|]. split.
  { rewrite length_app, header_bytes_length, length_firstn. lia. }
  split; [reflexivity|].
  intros Hr.
  assert (Hwire : firstn 16 (io.delivered r) = header_bytes (Header f)).
  { rewrite Hr, firstn_app, header_bytes_length.
    rewrite firstn_all2 by (rewrite header_bytes_length; lia).
    cbn [Nat.sub firstn]. apply app_nil_r. }
  assert (Hlen : length (io.delivered r) = (16 + L)%nat).
  { rewrite Hr, length_app, header_bytes_length, length_firstn. lia. }
  assert (Hh : header_of_bytes (Header fresh_frame) (firstn 16 (io.delivered r))
               = {| size := size (Header f); messageType := messageType (Header f);
                    reserved1 := reserved1 (Header f); ID := ID (Header f);
                    reserved := byte8_zero |}).
  { rewrite Hwire. apply header_of_bytes_header_bytes.
    - change (2 ^ 16) with 65536. lia.
    - exact Hid. }
  destruct (ReadIn_frame_arrived fresh_frame r) as (g & r' & Hread & Hg & _ & Hsp).
  - rewrite fresh_frame_capacity. lia.
  - lia.
  - rewrite Hh. cbn [size]. lia.
  - exists g, r'. rewrite Hh in Hg. split; [exact Hread|].
    rewrite Hg. cbn [size messageType ID]. repeat split.
    rewrite Hsp. f_equal. f_equal. rewrite Hg.
    rewrite (PayloadSize_valid {| size := size (Header f) |}) by (cbn [size]; lia).
    cbn [size]. replace (Z.to_nat (size (Header f) - 16)) with L by lia.
    rewrite Hr, skipn_app, header_bytes_length.
    rewrite skipn_all2 by (rewrite header_bytes_length; lia).
    cbn [Nat.sub skipn app]. apply firstn_all2. rewrite length_firstn. lia.
Qed.

(** ** Encoding a message into a frame *)

Lemma store_at_payload_length (buf d : list byte) :
  length d = length (skipn 16 buf) ->
  length (store_at buf 16 d) = length buf /\
  firstn 16 (store_at buf 16 d) = firstn 16 buf.
Proof.
  intros Hd. rewrite length_skipn in Hd. unfold store_at.
  split.
  - rewrite !length_app, length_firstn, length_skipn. lia.
  - rewrite firstn_app, firstn_firstn, length_firstn.
    replace (Nat.min 16 16) with 16%nat by reflexivity.
    destruct (Nat.le_gt_cases 16 (length buf)) as [H|H].
    + rewrite Nat.min_l, Nat.sub_diag by lia. cbn [firstn]. apply app_nil_r.
    + assert (d = []) as -> by (destruct d; [reflexivity|cbn [length] in Hd; lia]).
      cbn [app length]. rewrite skipn_all2 by lia. rewrite firstn_nil.
      apply app_nil_r.
Qed.

Section WithMessage.
Context {M : Type} `{message M}.

Lemma Frame_write_buffer (f : Frame) (msg : M) :
  capacity (fst (Frame_write f msg)) = capacity f /\
  headerBuffer (fst (Frame_write f msg)) = headerBuffer f.
Proof.
  unfold Frame_write.
  pose proof (msg_write_length msg (WriteBuffer_Wrap (Payload f))) as Hlen.
  destruct (msg_write msg (WriteBuffer_Wrap (Payload f))) as [e w1].
  cbn [snd WriteBuffer_Wrap wb_buffer] in Hlen. unfold Payload in Hlen.
  destruct (store_at_payload_length (buffer f) (wb_buffer w1) Hlen) as [H1 H2].
  unfold capacity, headerBuffer.
  destruct e; cbn [fst buffer]; rewrite H1, H2; split; reflexivity.
Qed.

Lemma Frame_write_encoded (f : Frame) (msg : M) (w1 : WriteBuffer) :
  16 <= capacity f ->
  msg_write msg (WriteBuffer_Wrap (Payload f)) = (None, w1) ->
  0 <= BytesWritten w1 <= 65519 ->
  exists f1,
    Frame_write f msg = (f1, None) /\
    size (Header f1) = BytesWritten w1 + 16 /\
    messageType (Header f1) = msg_messageType msg /\
    reserved1 (Header f1) = Byte.x00 /\
    ID (Header f1) = msg_ID msg /\
    Payload f1 = wb_buffer w1 /\
    capacity f1 = capacity f.
Proof.
  intros Hcap Hw HL.
  pose proof (Frame_write_buffer f msg) as [Hc Hh].
  pose proof (msg_write_length msg (WriteBuffer_Wrap (Payload f))) as Hlen.
  unfold Frame_write in *. rewrite Hw in *.
  cbn [fst snd WriteBuffer_Wrap wb_buffer] in *.
  eexists. split; [reflexivity|]. cbn [Header SetPayloadSize size messageType reserved1 ID].
  rewrite (u16_small (BytesWritten w1)) by lia.
  unfold FrameHeaderSize. rewrite u16_small by lia.
  repeat split; try assumption.
  unfold Payload in *. cbn [buffer]. unfold store_at.
  rewrite skipn_app, length_firstn.
  unfold capacity in Hcap.
  rewrite skipn_all2 by (rewrite length_firstn; lia).
  replace (16 - Nat.min 16 (length (buffer f)))%nat with 0%nat by lia.
  cbn [skipn app]. rewrite skipn_all2; [apply app_nil_r|].
  rewrite length_skipn in Hlen. lia.
Qed.

End WithMessage.

(** An encoding longer than the payload view does not fit: the cursor
    reports [ErrBufferFull] and nothing is stored. *)
Lemma raw_write_too_long (m : rawMessage) (b : list byte) :
  (length b < length (raw_body m))%nat ->
  msg_write m (WriteBuffer_Wrap b)
  = (Some ErrBufferFull, {| wb_buffer := b; wb_pos := 0; wb_err := Some ErrBufferFull |}).
Proof.
  intros H. cbn [msg_write rawMessage_message].
  unfold bind, WriteBytes, put, WriteBuffer_Err, wb_remaining.
  cbn [WriteBuffer_Wrap wb_err wb_pos wb_buffer skipn].
  destruct (Nat.ltb_spec (length b) (length (raw_body m))); [reflexivity|lia].
Qed.

(** C10.  When the message's encoder fails, [Frame.write] returns that
    error and every header field ([size], [messageType], [reserved1], [ID],
    [reserved]) keeps the value it had before the call; the buffer is not
    grown and its header bytes are untouched, so only payload bytes can have
    changed. *)
Theorem Frame_write_error_keeps_header {M} `{message M}
    (f : Frame) (msg : M) (e : error) (w1 : WriteBuffer) :
  msg_write msg (WriteBuffer_Wrap (Payload f)) = (Some e, w1) ->
  exists f',
    Frame_write f msg = (f', Some e) /\
    size (Header f') = size (Header f) /\
    messageType (Header f') = messageType (Header f) /\
    reserved1 (Header f') = reserved1 (Header f) /\
    ID (Header f') = ID (Header f) /\
    reserved (Header f') = reserved (Header f) /\
    capacity f' = capacity f /\
    headerBuffer f' = headerBuffer f.
Proof.
  intros Hw.
  pose proof (Frame_write_buffer f msg) as [Hc Hh].
  unfold Frame_write in *. rewrite Hw in *. cbn [fst] in *.
  eexists. split; [reflexivity|]. cbn [Header].
  repeat split; assumption.
Qed.

Lemma Frame_write_error_keeps_header_witness :
  exists f',
    Frame_write used_frame oversized_message = (f', Some ErrBufferFull) /\
    size (Header f') = size (Header used_frame) /\
    messageType (Header f') = messageType (Header used_frame) /\
    reserved1 (Header f') = reserved1 (Header used_frame) /\
    ID (Header f') = ID (Header used_frame) /\
    reserved (Header f') = reserved (Header used_frame) /\
    capacity f' = capacity used_frame /\
    headerBuffer f' = headerBuffer used_frame.
Proof.
  apply (Frame_write_error_keeps_header used_frame oversized_message ErrBufferFull
           {| wb_buffer := Payload used_frame; wb_pos := 0;
              wb_err := Some ErrBufferFull |}).
  apply raw_write_too_long. apply Nat.ltb_lt. vm_compute. reflexivity.
Defined.

(** C1.  A frame whose header fields and payload bytes were set by a
    successful encode (message type [m], id [i], payload [p] of length [L]
    with [0 < L <= 65519]), written by [WriteOut] into an in-memory sink and
    read by [ReadIn] into a fresh frame from a reader that delivers exactly
    those bytes (in reads of any sizes): all three calls succeed, the decoded
    message type is [m], the decoded id is [i], and the sized payload is
    [p]. *)
Theorem WriteOut_ReadIn_roundtrip {M} `{message M}
    (f : Frame) (msg : M) (w1 : WriteBuffer) (r : io.Reader) :
  16 <= capacity f ->
  msg_write msg (WriteBuffer_Wrap (Payload f)) = (None, w1) ->
  0 < BytesWritten w1 <= 65519 ->
  0 <= msg_ID msg < 2 ^ 32 ->
  io.delivered r = snd (fst (WriteOut (fst (Frame_write f msg)) ([] : io.Buffer))) ->
  exists f1 f2 out f0 g r',
    Frame_write f msg = (f1, None) /\
    WriteOut f1 ([] : io.Buffer) = (f2, out, Returned None) /\
    NewFrame = Returned f0 /\
    ReadIn f0 r = (g, r', Returned None) /\
    messageType (Header g) = msg_messageType msg /\
    ID (Header g) = msg_ID msg /\
    SizedPayload g
    = (g, Returned (firstn (Z.to_nat (BytesWritten w1)) (wb_buffer w1))).
Proof.
  intros Hcap Hw HL Hid Hr.
  destruct (Frame_write_encoded f msg w1 Hcap Hw ltac:(lia))
    as (f1 & Hf1 & Hsz & Hmt & _ & Hi & Hp & Hc).
  pose proof (BytesWritten_range w1) as Hbw.
  rewrite Hf1 in Hr. cbn [fst] in Hr.
  destruct (frame_roundtrip f1 r) as (f2 & out & Hout & _ & _ & Hback).
  - rewrite Hsz, Hc. rewrite <- Hp in Hbw. unfold Payload, capacity in *.
    rewrite length_skipn in Hbw. lia.
  - lia.
  - rewrite Hi. exact Hid.
  - rewrite Hout in Hr. cbn [fst snd] in Hr.
    destruct (Hback Hr) as (g & r' & Hread & _ & Hm & Hi' & Hsp).
    exists f1, f2, out, fresh_frame, g, r'.
    split; [exact Hf1|]. split; [exact Hout|]. split; [exact NewFrame_fresh|].
    split; [exact Hread|]. split; [congruence|]. split; [congruence|].
    rewrite Hsp, Hp. rewrite PayloadSize_valid by lia.
    rewrite Hsz. do 4 f_equal. lia.
Qed.

Lemma WriteOut_ReadIn_roundtrip_witness :
  exists f1 f2 out f0 g r',
    Frame_write fresh_frame sample_message = (f1, None) /\
    WriteOut f1 ([] : io.Buffer) = (f2, out, Returned None) /\
    NewFrame = Returned f0 /\
    ReadIn f0 (bytewise sample_wire) = (g, r', Returned None) /\
    messageType (Header g) = Byte.x07 /\
    ID (Header g) = 42 /\
    SizedPayload g = (g, Returned sample_payload).
Proof.
  assert (E1 : Byte.x07 = msg_messageType sample_message) by reflexivity.
  assert (E2 : 42 = msg_ID sample_message) by reflexivity.
  assert (E3 : sample_payload
               = firstn (Z.to_nat (BytesWritten sample_cursor)) (wb_buffer sample_cursor))
    by (vm_compute; reflexivity).
  rewrite E1, E2, E3.
  apply (WriteOut_ReadIn_roundtrip fresh_frame sample_message sample_cursor
           (bytewise sample_wire)).
  - vm_compute. discriminate.
  - vm_compute. reflexivity.
  - split; vm_compute; [reflexivity | discriminate].
  - split; vm_compute; [discriminate | reflexivity].
  - vm_compute. reflexivity.
Defined.

(** ** The bound on the frame size *)

(** C4, as stated, fails: on a frame grown to capacity 65536 (the capacity
    reading a frame of 40016 bytes leaves behind), [Frame.write] of a message
    that encodes to 65520 bytes returns no error; the header then declares a
    payload of 65520 bytes and a frame size of 0.  [SetPayloadSize(65520)]
    itself stores size 0. *)
Lemma payload_65520_not_rejected :
  capacity (fst (SizedPayload large_header_frame)) = capacity max_frame /\
  snd (Frame_write max_frame message_65520) = None /\
  PayloadSize (Header (fst (Frame_write max_frame message_65520))) = 65520 /\
  FrameSize (Header (fst (Frame_write max_frame message_65520))) = 0 /\
  FrameSize (SetPayloadSize FrameHeader_zero 65520) = 0.
Proof.
  repeat split; vm_compute; reflexivity.
Qed.

(** C4, amended.  A payload length of 65519 (frame size 65535) is declared
    and round-trips without error.  [SetPayloadSize] has no error result: for
    [65519 < L <= 65535] it stores [L + 16] reduced modulo 2^16, which is
    [L - 65520], a size below the header size.  The size field being sixteen
    bits wide, [FrameSize()] is at most 65535 after every [SetPayloadSize]. *)
Theorem SetPayloadSize_bound (f : Frame) (r : io.Reader) (fh : FrameHeader) (L z : Z) :
  65535 <= capacity f ->
  0 <= ID (Header f) < 2 ^ 32 ->
  io.delivered r
  = snd (fst (WriteOut {| buffer := buffer f; Header := SetPayloadSize (Header f) 65519 |}
                       ([] : io.Buffer))) ->
  65519 < L <= 65535 ->
  (exists f2 out g r',
     FrameSize (SetPayloadSize (Header f) 65519) = 65535 /\
     WriteOut {| buffer := buffer f; Header := SetPayloadSize (Header f) 65519 |}
              ([] : io.Buffer) = (f2, out, Returned None) /\
     length out = Z.to_nat 65535 /\
     ReadIn fresh_frame r = (g, r', Returned None) /\
     PayloadSize (Header g) = 65519 /\
     SizedPayload g = (g, Returned (firstn (Z.to_nat 65519) (Payload f)))) /\
  (size (SetPayloadSize fh L) = L - 65520 /\ FrameSize (SetPayloadSize fh L) < 16) /\
  0 <= FrameSize (SetPayloadSize fh z) <= 65535.
Proof.
  intros Hcap Hid Hr HL.
  set (f1 := {| buffer := buffer f; Header := SetPayloadSize (Header f) 65519 |}) in *.
  pose proof (SetPayloadSize_size (Header f) 65519 ltac:(lia)) as Hs.
  assert (Hp : PayloadSize (SetPayloadSize (Header f) 65519) = 65519)
    by (rewrite PayloadSize_valid; rewrite Hs; lia).
  assert (Hf : FrameSize (SetPayloadSize (Header f) 65519) = 65535) by exact Hs.
  split; [|split].
  - destruct (frame_roundtrip f1 r) as (f2 & out & Hout & Hlen & _ & Hback).
    + cbn [Header f1]. rewrite Hs. unfold capacity in *. cbn [buffer f1]. lia.
    + cbn [Header f1]. rewrite Hs. lia.
    + exact Hid.
    + rewrite Hout in Hr. cbn [fst snd] in Hr.
      destruct (Hback Hr) as (g & r' & Hread & Hsz & _ & _ & Hsp).
      exists f2, out, g, r'. split; [exact Hf|]. split; [exact Hout|].
      cbn [Header f1] in *. rewrite Hs in Hlen. rewrite Hp in Hsp.
      split; [exact Hlen|]. split; [exact Hread|]. split.
      * rewrite PayloadSize_valid; rewrite Hsz, Hs; lia.
      * exact Hsp.
  - assert (Hsz : size (SetPayloadSize fh L) = L - 65520).
    { unfold SetPayloadSize, FrameHeaderSize, u16. cbn [size].
      change (2 ^ 16) with 65536.
      replace (L + 16) with (L - 65520 + 1 * 65536) by lia.
      rewrite Z.mod_add by lia. apply Z.mod_small. lia. }
    unfold FrameSize. rewrite Hsz. lia.
  - unfold FrameSize, SetPayloadSize. cbn [size].
    pose proof (u16_range (z + FrameHeaderSize)). lia.
Qed.

Lemma SetPayloadSize_bound_witness :
  (exists f2 out g r',
     FrameSize (SetPayloadSize (Header max_frame) 65519) = 65535 /\
     WriteOut max_payload_frame ([] : io.Buffer) = (f2, out, Returned None) /\
     length out = Z.to_nat 65535 /\
     ReadIn fresh_frame [(max_payload_wire, None)] = (g, r', Returned None) /\
     PayloadSize (Header g) = 65519 /\
     SizedPayload g = (g, Returned (firstn (Z.to_nat 65519) (Payload max_frame)))) /\
  (size (SetPayloadSize FrameHeader_zero 65520) = 65520 - 65520 /\
   FrameSize (SetPayloadSize FrameHeader_zero 65520) < 16) /\
  0 <= FrameSize (SetPayloadSize FrameHeader_zero 70000) <= 65535.
Proof.
  apply (SetPayloadSize_bound max_frame [(max_payload_wire, None)]
           FrameHeader_zero 65520 70000).
  - unfold capacity, max_frame. cbn [buffer]. rewrite repeat_length. lia.
  - split; vm_compute; [discriminate | reflexivity].
  - cbn [io.delivered]. apply app_nil_r.
  - lia.
Defined.

(** * Further properties *)

(** ** More on the size accessors *)

Lemma SetPayloadSize_wraps (fh : FrameHeader) (L : Z) :
  65519 < L <= 65535 -> size (SetPayloadSize fh L) = L - 65520.
Proof.
  intros HL. unfold SetPayloadSize, FrameHeaderSize, u16. cbn [size].
  change (2 ^ 16) with 65536.
  replace (L + 16) with (L - 65520 + 1 * 65536) by lia.
  rewrite Z.mod_add by lia. apply Z.mod_small. lia.
Qed.

(** X1.  For every [uint16] argument [L], [SetPayloadSize(L)] followed by
    [PayloadSize()] gives [L] back, also when the stored size wrapped; the
    stored frame size is a valid one (at least the header size) exactly when
    [L] is at most [MaxFramePayloadSize]; the other header fields keep their
    values. *)
Theorem PayloadSize_SetPayloadSize_uint16 (fh : FrameHeader) (L : Z) :
  0 <= L <= 65535 ->
  PayloadSize (SetPayloadSize fh L) = L /\
  (FrameHeaderSize <= FrameSize (SetPayloadSize fh L) <-> L <= MaxFramePayloadSize) /\
  messageType (SetPayloadSize fh L) = messageType fh /\
  reserved1 (SetPayloadSize fh L) = reserved1 fh /\
  ID (SetPayloadSize fh L) = ID fh /\
  reserved (SetPayloadSize fh L) = reserved fh.
Proof.
  intros HL. unfold FrameSize, MaxFramePayloadSize, MaxFrameSize, FrameHeaderSize.
  destruct (Z.le_gt_cases L 65519) as [Hle|Hgt].
  - pose proof (SetPayloadSize_size fh L ltac:(lia)) as Hs.
    split; [rewrite PayloadSize_valid; rewrite Hs; lia|].
    split; [rewrite Hs; lia|]. repeat split.
  - pose proof (SetPayloadSize_wraps fh L ltac:(lia)) as Hs.
    split; [rewrite PayloadSize_wraps; rewrite Hs; lia|].
    split; [rewrite Hs; lia|]. repeat split.
Qed.

Lemma PayloadSize_SetPayloadSize_uint16_witness :
  PayloadSize (SetPayloadSize FrameHeader_zero 65530) = 65530 /\
  (FrameHeaderSize <= FrameSize (SetPayloadSize FrameHeader_zero 65530)
   <-> 65530 <= MaxFramePayloadSize) /\
  messageType (SetPayloadSize FrameHeader_zero 65530) = messageType FrameHeader_zero /\
  reserved1 (SetPayloadSize FrameHeader_zero 65530) = reserved1 FrameHeader_zero /\
  ID (SetPayloadSize FrameHeader_zero 65530) = ID FrameHeader_zero /\
  reserved (SetPayloadSize FrameHeader_zero 65530) = reserved FrameHeader_zero.
Proof.
  apply (PayloadSize_SetPayloadSize_uint16 FrameHeader_zero 65530). lia.
Defined.

(** ** More on the header codec *)

Lemma PutUint16_Uint16 (b0 b1 : byte) : PutUint16 (Uint16 [b0; b1]) = [b0; b1].
Proof.
  unfold PutUint16, Uint16.
  pose proof (byte.unsigned_range b0) as H0. pose proof (byte.unsigned_range b1) as H1.
  change (2 ^ 8) with 256 in *.
  rewrite lor_shiftl_add by (change (2 ^ 8) with 256; lia).
  rewrite Z.shiftr_div_pow2 by lia. change (2 ^ 8) with 256.
  f_equal; [|f_equal]; apply byte.unsigned_inj; rewrite byte.unsigned_of_Z;
    unfold byte.wrap; change (2 ^ 8) with 256;
    Z.div_mod_to_equations; lia.
Qed.

Lemma PutUint32_Uint32 (b0 b1 b2 b3 : byte) :
  PutUint32 (Uint32 [b0; b1; b2; b3]) = [b0; b1; b2; b3].
Proof.
  unfold PutUint32, Uint32.
  pose proof (byte.unsigned_range b0) as H0. pose proof (byte.unsigned_range b1) as H1.
  pose proof (byte.unsigned_range b2) as H2. pose proof (byte.unsigned_range b3) as H3.
  change (2 ^ 8) with 256 in *.
  rewrite (lor_shiftl_add _ _ 8) by (change (2 ^ 8) with 256; lia).
  change (2 ^ 8) with 256.
  rewrite (lor_shiftl_add _ _ 16) by (change (2 ^ 16) with 65536; lia).
  change (2 ^ 16) with 65536.
  rewrite (lor_shiftl_add _ _ 24) by (change (2 ^ 24) with 16777216; lia).
  change (2 ^ 24) with 16777216.
  rewrite !Z.shiftr_div_pow2 by lia.
  change (2 ^ 8) with 256. change (2 ^ 16) with 65536. change (2 ^ 24) with 16777216.
  f_equal; [|f_equal; [|f_equal; [|f_equal]]];
    apply byte.unsigned_inj; rewrite byte.unsigned_of_Z;
    unfold byte.wrap; change (2 ^ 8) with 256;
    Z.div_mod_to_equations; lia.
Qed.

Lemma header_bytes_header_of_bytes (old : FrameHeader) (wire : list byte) :
  length wire = 16%nat ->
  header_bytes (header_of_bytes old wire) = firstn 8 wire ++ byte8_slice (reserved old).
Proof.
  intros H. apply length16_inv in H.
  destruct H as (b0 & b1 & b2 & b3 & b4 & b5 & b6 & b7 & b8 & b9 & b10 & b11
                 & b12 & b13 & b14 & b15 & ->).
  unfold header_bytes, header_of_bytes.
  cbn [size messageType reserved1 ID reserved firstn skipn nth].
  rewrite PutUint16_Uint16, PutUint32_Uint32. reflexivity.
Qed.

(** X2.  [FrameHeader.read] from a cursor that holds fewer than sixteen
    bytes returns [typed.ErrEOF]; the [reserved] array keeps its value. *)
Theorem FrameHeader_read_short (old : FrameHeader) (wire : list byte) :
  (length wire < 16)%nat ->
  exists fh rb,
    FrameHeader_read old (ReadBuffer_Wrap wire) = (fh, Some ErrEOF, rb) /\
    reserved fh = reserved old.
Proof.
  intros H.
  do 16 (destruct wire as [|? wire]; [do 2 eexists; split; reflexivity|]).
  cbn [length] in H. lia.
Qed.

Lemma FrameHeader_read_short_witness :
  exists fh rb,
    FrameHeader_read FrameHeader_zero (ReadBuffer_Wrap (firstn 15 wire_with_reserved))
    = (fh, Some ErrEOF, rb) /\
    reserved fh = reserved FrameHeader_zero.
Proof.
  apply (FrameHeader_read_short FrameHeader_zero (firstn 15 wire_with_reserved)).
  apply Nat.ltb_lt. reflexivity.
Defined.

Lemma FrameHeader_write_length (fh : FrameHeader) (w : WriteBuffer) :
  length (wb_buffer (snd (FrameHeader_write fh w))) = length (wb_buffer w).
Proof.
  unfold FrameHeader_write, bind, WriteUint16, WriteUint32, WriteSingleByte,
    WriteBytes, WriteBuffer_Err.
  pose proof (put_length (PutUint16 (size fh)) w) as H1.
  destruct (put (PutUint16 (size fh)) w) as [u1 w1].
  pose proof (put_length [messageType fh] w1) as H2.
  destruct (put [messageType fh] w1) as [u2 w2].
  pose proof (put_length [reserved1 fh] w2) as H3.
  destruct (put [reserved1 fh] w2) as [u3 w3].
  pose proof (put_length (PutUint32 (ID fh)) w3) as H4.
  destruct (put (PutUint32 (ID fh)) w3) as [u4 w4].
  pose proof (put_length (byte8_slice (reserved fh)) w4) as H5.
  destruct (put (byte8_slice (reserved fh)) w4) as [u5 w5].
  cbn [snd] in *. congruence.
Qed.

Lemma FrameHeader_write_short_err (fh : FrameHeader) (buf : list byte) :
  (length buf < 16)%nat ->
  fst (FrameHeader_write fh (WriteBuffer_Wrap buf)) = Some ErrBufferFull.
Proof.
  intros H.
  destruct (reserved fh) as [[[[[[[a0 a1] a2] a3] a4] a5] a6] a7] eqn:Hr.
  unfold FrameHeader_write. rewrite Hr.
  do 16 (destruct buf as [|? buf]; [reflexivity|]).
  cbn [length] in H. lia.
Qed.

(** X3.  [FrameHeader.write] into a cursor over fewer than sixteen bytes
    returns [typed.ErrBufferFull]; the slice keeps its length. *)
Theorem FrameHeader_write_short (fh : FrameHeader) (buf : list byte) :
  (length buf < 16)%nat ->
  exists w,
    FrameHeader_write fh (WriteBuffer_Wrap buf) = (Some ErrBufferFull, w) /\
    length (wb_buffer w) = length buf.
Proof.
  intros H.
  pose proof (FrameHeader_write_short_err fh buf H) as He.
  pose proof (FrameHeader_write_length fh (WriteBuffer_Wrap buf)) as Hl.
  destruct (FrameHeader_write fh (WriteBuffer_Wrap buf)) as [e w].
  cbn [fst snd WriteBuffer_Wrap wb_buffer] in *. subst e.
  exists w. split; [reflexivity | exact Hl].
Qed.

Lemma FrameHeader_write_short_witness :
  exists w,
    FrameHeader_write FrameHeader_zero (WriteBuffer_Wrap (repeat Byte.x00 15))
    = (Some ErrBufferFull, w) /\
    length (wb_buffer w) = length (repeat Byte.x00 15).
Proof.
  apply (FrameHeader_write_short FrameHeader_zero (repeat Byte.x00 15)).
  apply Nat.ltb_lt. reflexivity.
Defined.

(** X4.  A header read from sixteen wire bytes and written back gives the
    first eight wire bytes again (size, message type, [reserved1], id),
    followed by the eight bytes of the [reserved] array the header had before
    the read. *)
Theorem FrameHeader_read_write_bytes (old : FrameHeader) (wire buf : list byte) :
  length wire = 16%nat ->
  length buf = 16%nat ->
  exists fh rb w,
    FrameHeader_read old (ReadBuffer_Wrap wire) = (fh, None, rb) /\
    FrameHeader_write fh (WriteBuffer_Wrap buf) = (None, w) /\
    wb_buffer w = firstn 8 wire ++ byte8_slice (reserved old).
Proof.
  intros Hw Hb.
  exists (header_of_bytes old wire).
  exists {| rb_buffer := wire; rb_remaining := []; rb_err := None |}.
  exists {| wb_buffer := header_bytes (header_of_bytes old wire); wb_pos := 16;
            wb_err := None |}.
  split; [apply FrameHeader_read_16; exact Hw|].
  split; [apply FrameHeader_write_16; exact Hb|].
  cbn [wb_buffer]. apply header_bytes_header_of_bytes. exact Hw.
Qed.

Lemma FrameHeader_read_write_bytes_witness :
  exists fh rb w,
    FrameHeader_read FrameHeader_zero (ReadBuffer_Wrap wire_with_reserved)
    = (fh, None, rb) /\
    FrameHeader_write fh (WriteBuffer_Wrap (repeat Byte.x00 16)) = (None, w) /\
    wb_buffer w = firstn 8 wire_with_reserved ++ byte8_slice (reserved FrameHeader_zero).
Proof.
  apply (FrameHeader_read_write_bytes FrameHeader_zero wire_with_reserved
           (repeat Byte.x00 16)); reflexivity.
Defined.

Lemma byte8_slice_inj (a b : byte8) : byte8_slice a = byte8_slice b -> a = b.
Proof.
  destruct a as [[[[[[[a0 a1] a2] a3] a4] a5] a6] a7].
  destruct b as [[[[[[[b0 b1] b2] b3] b4] b5] b6] b7].
  cbn [byte8_slice]. intros H. injection H as -> -> -> -> -> -> -> ->. reflexivity.
Qed.

(** X5.  [FrameHeader.write] never gives two different headers (with size
    and id in the range of their types) the same sixteen bytes. *)
Theorem FrameHeader_write_injective (fh1 fh2 : FrameHeader) (b1 b2 : list byte) :
  0 <= size fh1 < 2 ^ 16 -> 0 <= ID fh1 < 2 ^ 32 ->
  0 <= size fh2 < 2 ^ 16 -> 0 <= ID fh2 < 2 ^ 32 ->
  length b1 = 16%nat -> length b2 = 16%nat ->
  fh1 <> fh2 ->
  wb_buffer (snd (FrameHeader_write fh1 (WriteBuffer_Wrap b1)))
  <> wb_buffer (snd (FrameHeader_write fh2 (WriteBuffer_Wrap b2))).
Proof.
  intros Hs1 Hi1 Hs2 Hi2 Hb1 Hb2 Hne.
  rewrite !FrameHeader_write_16 by assumption. cbn [snd wb_buffer]. intros Heq.
  apply Hne.
  pose proof (header_of_bytes_header_bytes fh1 fh1 Hs1 Hi1) as E1.
  pose proof (header_of_bytes_header_bytes fh1 fh2 Hs2 Hi2) as E2.
  rewrite Heq in E1. rewrite E1 in E2.
  assert (Hr : reserved fh1 = reserved fh2).
  { apply byte8_slice_inj.
    assert (H8 : skipn 8 (header_bytes fh1) = skipn 8 (header_bytes fh2)) by congruence.
    unfold header_bytes in H8.
    destruct (reserved fh1) as [[[[[[[a0 a1] a2] a3] a4] a5] a6] a7].
    destruct (reserved fh2) as [[[[[[[c0 c1] c2] c3] c4] c5] c6] c7].
    exact H8. }
  destruct fh1 as [s1 m1 r1 i1 rs1], fh2 as [s2 m2 r2 i2 rs2].
  cbn [size messageType reserved1 ID reserved] in E2, Hr.
  injection E2 as -> -> -> ->. subst. reflexivity.
Qed.

Lemma FrameHeader_write_injective_witness :
  wb_buffer (snd (FrameHeader_write (SetPayloadSize FrameHeader_zero 100)
                    (WriteBuffer_Wrap (repeat Byte.x00 16))))
  <> wb_buffer (snd (FrameHeader_write (SetPayloadSize FrameHeader_zero 356)
                       (WriteBuffer_Wrap wire_with_reserved))).
Proof.
  apply (FrameHeader_write_injective (SetPayloadSize FrameHeader_zero 100)
           (SetPayloadSize FrameHeader_zero 356) (repeat Byte.x00 16) wire_with_reserved).
  - split; vm_compute; [discriminate | reflexivity].
  - split; vm_compute; [discriminate | reflexivity].
  - split; vm_compute; [discriminate | reflexivity].
  - split; vm_compute; [discriminate | reflexivity].
  - reflexivity.
  - reflexivity.
  - intros E. apply (f_equal size) in E. vm_compute in E. discriminate E.
Defined.

(** ** More on buffer growth *)

(** X6.  [updateBufferSize] with a capacity of at least the header size
    returns a frame whose buffer has exactly that capacity: the old bytes are
    kept at their offsets as far as they fit, every byte beyond the old
    capacity is zero, and the header is unchanged. *)
Theorem updateBufferSize_bytes (f : Frame) (n : Z) :
  FrameHeaderSize <= n ->
  exists f',
    updateBufferSize f n = Returned f' /\
    capacity f' = n /\
    Header f' = Header f /\
    (forall i : nat, Z.of_nat i < Z.min n (capacity f) ->
       nth i (buffer f') Byte.x00 = nth i (buffer f) Byte.x00) /\
    (forall i : nat, capacity f <= Z.of_nat i ->
       nth i (buffer f') Byte.x00 = Byte.x00).
Proof.
  unfold FrameHeaderSize. intros Hn. unfold updateBufferSize, FrameHeaderSize.
  destruct (Z.ltb_spec n 0); [lia|]. destruct (Z.ltb_spec n 16); [lia|].
  eexists. split; [reflexivity|]. unfold capacity. cbn [buffer Header].
  split; [|split; [reflexivity|split]].
  - rewrite length_app, length_firstn, repeat_length. lia.
  - intros i Hi. rewrite app_nth1 by (rewrite length_firstn; lia).
    rewrite nth_firstn. destruct (Nat.ltb_spec i (Z.to_nat n)); [reflexivity|lia].
  - intros i Hi.
    destruct (Nat.lt_ge_cases i (length (firstn (Z.to_nat n) (buffer f)))) as [Hlt|Hge].
    + rewrite length_firstn in Hlt. lia.
    + rewrite app_nth2 by exact Hge. apply nth_repeat.
Qed.

Lemma updateBufferSize_bytes_witness :
  exists f',
    updateBufferSize used_frame 20 = Returned f' /\
    capacity f' = 20 /\
    Header f' = Header used_frame /\
    (forall i : nat, Z.of_nat i < Z.min 20 (capacity used_frame) ->
       nth i (buffer f') Byte.x00 = nth i (buffer used_frame) Byte.x00) /\
    (forall i : nat, capacity used_frame <= Z.of_nat i ->
       nth i (buffer f') Byte.x00 = Byte.x00).
Proof.
  apply (updateBufferSize_bytes used_frame 20). vm_compute. discriminate.
Defined.

(** X7.  For a valid size field, [SizedPayload] returns a view of exactly
    [PayloadSize()] bytes, and a second call changes nothing and returns the
    same view: growth happens at most once per header. *)
Theorem SizedPayload_idempotent (f : Frame) :
  16 <= capacity f ->
  16 <= size (Header f) <= 65535 ->
  exists f' p,
    SizedPayload f = (f', Returned p) /\
    Z.of_nat (length p) = PayloadSize (Header f) /\
    SizedPayload f' = (f', Returned p).
Proof.
  intros Hcap Hsz.
  destruct (SizedPayload_valid f Hcap Hsz) as (k & Hk & ->).
  do 2 eexists. split; [reflexivity|].
  assert (Hc : capacity {| buffer := buffer f ++ repeat Byte.x00 k; Header := Header f |}
               = capacity f + Z.of_nat k).
  { unfold capacity. cbn [buffer]. rewrite length_app, repeat_length. lia. }
  assert (Hp : Payload {| buffer := buffer f ++ repeat Byte.x00 k; Header := Header f |}
               = Payload f ++ repeat Byte.x00 k).
  { unfold Payload, capacity in *. cbn [buffer]. rewrite skipn_app.
    replace (16 - length (buffer f))%nat with 0%nat by lia. reflexivity. }
  split.
  - rewrite PayloadSize_valid by lia. rewrite length_firstn, length_app, repeat_length.
    unfold Payload, capacity in *. rewrite length_skipn. lia.
  - rewrite SizedPayload_fits; cbn [Header]; rewrite ?Hc; try lia.
    rewrite Hp. reflexivity.
Qed.

Lemma SizedPayload_idempotent_witness :
  exists f' p,
    SizedPayload growing_frame = (f', Returned p) /\
    Z.of_nat (length p) = PayloadSize (Header growing_frame) /\
    SizedPayload f' = (f', Returned p).
Proof.
  apply (SizedPayload_idempotent growing_frame).
  - vm_compute. discriminate.
  - split; vm_compute; discriminate.
Defined.

(** X8.  On a frame without a buffer (capacity 0, the zero value) whose
    header declares a size from 1 to 65535, the doubling loop of
    [SizedPayload] starts from 0 and never exits, whatever the number of
    iterations: the call does not return. *)
Theorem SizedPayload_empty_buffer_diverges (f : Frame) :
  capacity f = 0 ->
  0 < size (Header f) <= 65535 ->
  SizedPayload f = (f, Diverge) /\
  forall fuel : nat,
    double_until fuel (capacity f)
      (u16 (FrameHeaderSize + PayloadSize (Header f))) = None.
Proof.
  intros Hcap Hsz.
  assert (Hn : u16 (FrameHeaderSize + PayloadSize (Header f)) = size (Header f))
    by (apply needed_is_size; lia).
  split.
  - unfold SizedPayload. rewrite Hn, Hcap.
    destruct (Z.ltb_spec 0 (size (Header f))); [|lia].
    rewrite double_until_zero by lia. reflexivity.
  - intros fuel. rewrite Hn, Hcap. apply double_until_zero. lia.
Qed.

Lemma SizedPayload_empty_buffer_diverges_witness :
  SizedPayload {| buffer := []; Header := SetPayloadSize FrameHeader_zero 3 |}
  = ({| buffer := []; Header := SetPayloadSize FrameHeader_zero 3 |}, Diverge) /\
  forall fuel : nat,
    double_until fuel
      (capacity {| buffer := []; Header := SetPayloadSize FrameHeader_zero 3 |})
      (u16 (FrameHeaderSize
            + PayloadSize (Header {| buffer := [];
                                     Header := SetPayloadSize FrameHeader_zero 3 |})))
    = None.
Proof.
  apply (SizedPayload_empty_buffer_diverges
           {| buffer := []; Header := SetPayloadSize FrameHeader_zero 3 |}).
  - reflexivity.
  - split; vm_compute; [reflexivity | discriminate].
Defined.

Lemma fill_length (r : io.Reader) : forall n : nat,
  (length (fst (fst (io.fill r n))) <= n)%nat.
Proof.
  induction r as [|[c oe] r IH]; intros n.
  - destruct n; cbn; lia.
  - destruct n as [|n]; [cbn; lia|].
    cbn [io.fill]. destruct (Nat.leb_spec (length c) (S n)) as [Hle|Hgt].
    + destruct oe as [e|]; [cbn; lia|].
      specialize (IH (S n - length c)%nat).
      destruct (io.fill r (S n - length c)) as [[d e] r'].
      cbn [fst] in *. rewrite length_app. lia.
    + cbn [fst]. rewrite length_firstn. lia.
Qed.

Lemma ReadFull_length (r : io.Reader) (n : nat) :
  (length (fst (fst (io.ReadFull r n))) <= n)%nat.
Proof.
  pose proof (fill_length r n) as H. unfold io.ReadFull.
  destruct (io.fill r n) as [[d e] r']. exact H.
Qed.

Lemma payload_slice_length (f : Frame) (p : list byte) :
  payload_slice f = Returned p -> (length p <= length (Payload f))%nat.
Proof.
  unfold payload_slice.
  destruct (PayloadSize (Header f) <=? Z.of_nat (length (Payload f))); [|discriminate].
  intros H. injection H as <-. rewrite length_firstn. lia.
Qed.

(** Whatever the header says, [SizedPayload] keeps the capacity or doubles
    it some number of times, never past the first capacity that holds a
    sixteen-bit size. *)
Lemma SizedPayload_capacity_any (f : Frame) :
  1 <= capacity f ->
  exists k : nat,
    capacity (fst (SizedPayload f)) = capacity f * 2 ^ Z.of_nat k /\
    (forall j : nat, (j < k)%nat -> capacity f * 2 ^ Z.of_nat j < 65536) /\
    Header (fst (SizedPayload f)) = Header f /\
    forall p, snd (SizedPayload f) = Returned p ->
              (length p <= length (Payload (fst (SizedPayload f))))%nat.
Proof.
  intros Hcap. unfold SizedPayload.
  pose proof (u16_range (FrameHeaderSize + PayloadSize (Header f))) as Hn.
  set (needed := u16 (FrameHeaderSize + PayloadSize (Header f))) in *.
  assert (Hsame : exists k : nat,
             capacity f = capacity f * 2 ^ Z.of_nat k /\
             (forall j : nat, (j < k)%nat -> capacity f * 2 ^ Z.of_nat j < 65536)).
  { exists 0%nat. change (2 ^ Z.of_nat 0) with 1. split; [lia|]. intros j Hj. lia. }
  destruct (Z.ltb_spec (capacity f) needed) as [Hlt|Hge].
  - destruct (double_until_spec 16 (capacity f) needed Hcap) as (k & _ & -> & Hk & Hmin).
    { change (2 ^ Z.of_nat 16) with 65536. lia. }
    unfold updateBufferSize, FrameHeaderSize.
    destruct (Z.ltb_spec (capacity f * 2 ^ Z.of_nat k) 0) as [Hneg|_].
    { destruct Hsame as (k0 & H1 & H2). exists k0. cbn [fst snd].
      repeat split; try assumption. discriminate. }
    destruct (Z.ltb_spec (capacity f * 2 ^ Z.of_nat k) 16) as [Hsmall|_].
    { destruct Hsame as (k0 & H1 & H2). exists k0. cbn [fst snd].
      repeat split; try assumption. discriminate. }
    exists k. cbn [fst snd Header]. split; [|split; [|split]].
    + unfold capacity at 1. cbn [buffer].
      rewrite firstn_all2 by (unfold capacity in *; lia).
      rewrite length_app, repeat_length. unfold capacity in *. lia.
    + intros j Hj. specialize (Hmin j Hj). lia.
    + reflexivity.
    + intros p Hp. apply payload_slice_length. exact Hp.
  - destruct Hsame as (k0 & H1 & H2). exists k0. cbn [fst snd].
    repeat split; try assumption. intros p Hp. apply payload_slice_length. exact Hp.
Qed.

Lemma doubled_capacity_grow (c : Z) (a k : nat) :
  (a <= 6)%nat ->
  c = initialPayloadCapacity * 2 ^ Z.of_nat a ->
  (forall j : nat, (j < k)%nat -> c * 2 ^ Z.of_nat j < 65536) ->
  exists b : nat, (b <= 6)%nat /\ (a <= b)%nat /\
                  c * 2 ^ Z.of_nat k = initialPayloadCapacity * 2 ^ Z.of_nat b.
Proof.
  unfold initialPayloadCapacity. intros Ha -> Hmin. exists (a + k)%nat.
  rewrite Nat2Z.inj_add, Z.pow_add_r by lia.
  split; [|split; [lia|lia]].
  destruct k as [|k]; [lia|].
  specialize (Hmin k ltac:(lia)).
  rewrite <- Z.mul_assoc, <- Z.pow_add_r in Hmin by lia.
  change 65536 with (1024 * 2 ^ 6) in Hmin.
  apply Z.mul_lt_mono_pos_l in Hmin; [|lia].
  apply Z.pow_lt_mono_r_iff in Hmin; lia.
Qed.

Lemma doubled_capacity_min (f : Frame) : doubled_capacity f -> 1024 <= capacity f.
Proof.
  intros (a & Ha & ->). unfold initialPayloadCapacity.
  assert (1 <= 2 ^ Z.of_nat a) by (apply (Z.pow_le_mono_r 2 0); lia). lia.
Qed.

Lemma SizedPayload_keeps_doubled (f : Frame) :
  doubled_capacity f ->
  doubled_capacity (fst (SizedPayload f)) /\
  capacity f <= capacity (fst (SizedPayload f)) <= 65536.
Proof.
  intros Hd. pose proof (doubled_capacity_min f Hd) as Hmin.
  destruct Hd as (a & Ha & Hc).
  destruct (SizedPayload_capacity_any f ltac:(lia)) as (k & Hk & Hj & _ & _).
  destruct (doubled_capacity_grow (capacity f) a k Ha Hc Hj) as (b & Hb & Hab & Hcb).
  split.
  - exists b. split; [exact Hb | congruence].
  - rewrite Hk, Hcb, Hc. unfold initialPayloadCapacity.
    assert (2 ^ Z.of_nat a <= 2 ^ Z.of_nat b) by (apply Z.pow_le_mono_r; lia).
    assert (2 ^ Z.of_nat b <= 2 ^ 6) by (apply Z.pow_le_mono_r; lia).
    change (2 ^ 6) with 64 in *. lia.
Qed.

(** X9.  Whatever the header holds, [SizedPayload] on a frame whose
    capacity is 1024 doubled at most six times leaves a frame of the same
    kind: the capacity does not shrink, stays at most 65536, and the header
    is unchanged. *)
Theorem SizedPayload_doubled_capacity (f : Frame) :
  doubled_capacity f ->
  doubled_capacity (fst (SizedPayload f)) /\
  capacity f <= capacity (fst (SizedPayload f)) <= 65536 /\
  Header (fst (SizedPayload f)) = Header f.
Proof.
  intros Hd. destruct (SizedPayload_keeps_doubled f Hd) as [H1 H2].
  split; [exact H1|]. split; [exact H2|].
  pose proof (doubled_capacity_min f Hd) as Hmin.
  destruct (SizedPayload_capacity_any f ltac:(lia)) as (_ & _ & _ & Hh & _).
  exact Hh.
Qed.

Lemma fresh_frame_doubled : doubled_capacity fresh_frame.
Proof. exists 0%nat. split; [lia | reflexivity]. Qed.

Lemma SizedPayload_doubled_capacity_witness :
  doubled_capacity (fst (SizedPayload growing_frame)) /\
  capacity growing_frame <= capacity (fst (SizedPayload growing_frame)) <= 65536 /\
  Header (fst (SizedPayload growing_frame)) = Header growing_frame.
Proof.
  apply (SizedPayload_doubled_capacity growing_frame).
  exists 0%nat. split; [apply Nat.leb_le; reflexivity | reflexivity].
Defined.

Lemma ReadIn_keeps_doubled (f : Frame) (r : io.Reader) :
  doubled_capacity f ->
  doubled_capacity (fst (fst (ReadIn f r))) /\
  capacity f <= capacity (fst (fst (ReadIn f r))) <= 65536.
Proof.
  intros Hd. pose proof (doubled_capacity_min f Hd) as Hmin.
  assert (Hkeep : forall g, capacity g = capacity f ->
            doubled_capacity g /\ capacity f <= capacity g <= 65536).
  { intros g Hg. destruct Hd as (a & Ha & Hc). rewrite Hg. split.
    - exists a. split; [exact Ha|]. rewrite Hg. exact Hc.
    - rewrite Hc. unfold initialPayloadCapacity.
      assert (2 ^ Z.of_nat a <= 2 ^ 6) by (apply Z.pow_le_mono_r; lia).
      change (2 ^ 6) with 64 in *. lia. }
  destruct (Nat.lt_ge_cases (length (io.delivered r)) 16) as [Hshort|Hlong].
  - destruct (ReadIn_header_short f r ltac:(lia) Hshort) as (e & f' & r' & -> & _ & Hc).
    cbn [fst]. apply Hkeep. exact Hc.
  - rewrite ReadIn_header_arrived by lia.
    set (f2 := {| buffer := firstn 16 (io.delivered r) ++ Payload f;
                  Header := header_of_bytes (Header f) (firstn 16 (io.delivered r)) |}).
    assert (Hc2 : capacity f2 = capacity f).
    { unfold capacity, f2, Payload in *. cbn [buffer].
      rewrite length_app, length_firstn, length_skipn. lia. }
    assert (Hd2 : doubled_capacity f2).
    { destruct Hd as (a & Ha & Hc). exists a. split; [exact Ha|]. congruence. }
    unfold read_payload.
    destruct (0 <? PayloadSize (Header f2)); [|cbn [fst]; apply Hkeep; exact Hc2].
    pose proof (SizedPayload_keeps_doubled f2 Hd2) as [Hd3 Hc3].
    destruct (SizedPayload_capacity_any f2 ltac:(lia)) as (_ & _ & _ & _ & Hlen).
    destruct (SizedPayload f2) as [f3 [p| |]] eqn:Hsp; cbn [fst snd] in *.
    + specialize (Hlen p eq_refl).
      pose proof (ReadFull_length (snd (io.ReadFull r 16)) (length p)) as Hrd.
      destruct (io.ReadFull (snd (io.ReadFull r 16)) (length p)) as [[d e3] r2].
      cbn [fst] in *.
      assert (Hc4 : capacity {| buffer := store_at (buffer f3) 16 d; Header := Header f3 |}
                    = capacity f3).
      { unfold capacity. cbn [buffer]. f_equal. apply store_at_length.
        unfold Payload in Hlen. rewrite length_skipn in Hlen.
        pose proof (doubled_capacity_min f3 Hd3) as H3. unfold capacity in H3. lia. }
      split; [|rewrite Hc4; lia].
      destruct Hd3 as (b & Hb & Hcb). exists b. split; [exact Hb|]. congruence.
    + split; [exact Hd3 | lia].
    + split; [exact Hd3 | lia].
Qed.

(** X10.  Whatever the stream delivers and however [ReadIn] ends (result,
    error or panic), a frame whose capacity is 1024 doubled at most six times
    is left with such a capacity, not smaller than before and at most
    65536. *)
Theorem ReadIn_doubled_capacity (f : Frame) (r : io.Reader) :
  doubled_capacity f ->
  doubled_capacity (fst (fst (ReadIn f r))) /\
  capacity f <= capacity (fst (fst (ReadIn f r))) <= 65536.
Proof. apply ReadIn_keeps_doubled. Qed.

Lemma ReadIn_doubled_capacity_witness :
  doubled_capacity (fst (fst (ReadIn fresh_frame undersized_stream))) /\
  capacity fresh_frame <= capacity (fst (fst (ReadIn fresh_frame undersized_stream)))
  <= 65536.
Proof.
  apply (ReadIn_doubled_capacity fresh_frame undersized_stream).
  exact fresh_frame_doubled.
Defined.

(** X26.  A frame made by [NewFrame] and used for any sequence of [ReadIn]
    calls, each on any stream and with any outcome, always has a capacity of
    1024 doubled at most six times: between 1024 and 65536 bytes. *)
Theorem ReadIn_all_bounded (rs : list io.Reader) :
  exists f0,
    NewFrame = Returned f0 /\
    doubled_capacity (ReadIn_all f0 rs) /\
    1024 <= capacity (ReadIn_all f0 rs) <= 65536.
Proof.
  exists fresh_frame. split; [exact NewFrame_fresh|].
  assert (Hall : forall f, doubled_capacity f -> doubled_capacity (ReadIn_all f rs)).
  { induction rs as [|r rs IH]; intros f Hd; [exact Hd|].
    cbn [ReadIn_all]. apply IH. apply ReadIn_keeps_doubled. exact Hd. }
  pose proof (Hall fresh_frame fresh_frame_doubled) as Hd.
  split; [exact Hd|]. split; [apply doubled_capacity_min; exact Hd|].
  destruct Hd as (k & Hk & ->). unfold initialPayloadCapacity.
  assert (2 ^ Z.of_nat k <= 2 ^ 6) by (apply Z.pow_le_mono_r; lia).
  change (2 ^ 6) with 64 in *. lia.
Qed.

(** ** More on reading a frame *)

Lemma fill_clean_short (r : io.Reader) : forall n : nat,
  (forall c, In c r -> snd c = None) ->
  (length (io.delivered r) < n)%nat ->
  io.fill r n = (io.delivered r, Some EOF, []).
Proof.
  induction r as [|[c oe] r IH]; intros n Hclean Hn.
  - destruct n; [cbn in Hn; lia | reflexivity].
  - assert (oe = None) as -> by (apply (Hclean (c, oe)); left; reflexivity).
    destruct n as [|n]; [lia|].
    cbn [io.fill]. cbn [io.delivered] in *. rewrite length_app in Hn.
    destruct (Nat.leb_spec (length c) (S n)) as [Hle|Hgt]; [|lia].
    rewrite IH; [reflexivity| |lia].
    intros c' Hc'. apply Hclean. right. exact Hc'.
Qed.

(** X11.  When the stream delivers fewer than sixteen bytes before it ends
    or fails, [ReadIn] returns an error and leaves the header, the capacity
    and the payload bytes of the frame as they were; on a stream without
    errors the error is [io.EOF] when no byte arrived and
    [io.ErrUnexpectedEOF] otherwise. *)
Theorem ReadIn_short_header (f : Frame) (r : io.Reader) :
  16 <= capacity f ->
  (length (io.delivered r) < 16)%nat ->
  exists e f' r',
    ReadIn f r = (f', r', Returned (Some e)) /\
    Header f' = Header f /\
    capacity f' = capacity f /\
    Payload f' = Payload f /\
    ((forall c, In c r -> snd c = None) ->
     e = if (length (io.delivered r) =? 0)%nat then EOF else ErrUnexpectedEOF).
Proof.
  intros Hcap Hlen. unfold ReadIn, FillFrom.
  cbn [ReadBuffer_Wrap rb_buffer].
  rewrite headerBuffer_length by exact Hcap. cbn [Nat.ltb Nat.leb].
  destruct (ReadFull_short r 16 Hlen) as (e & r1 & Heq).
  rewrite Heq. exists e. do 2 eexists. split; [reflexivity|].
  cbn [Header buffer rb_buffer]. split; [reflexivity|].
  assert (Hb : store_at (buffer f) 0 (store_at (headerBuffer f) 0 (io.delivered r))
               = io.delivered r ++ skipn (length (io.delivered r)) (buffer f)).
  { rewrite !store_at_0. unfold headerBuffer.
    rewrite length_app, length_skipn, length_firstn.
    unfold capacity in Hcap.
    replace (length (io.delivered r)
             + (Nat.min 16 (length (buffer f)) - length (io.delivered r)))%nat
      with 16%nat by lia.
    rewrite <- app_assoc. f_equal.
    rewrite <- (firstn_skipn (16 - length (io.delivered r))
                  (skipn (length (io.delivered r)) (buffer f))).
    rewrite skipn_skipn.
    replace (16 - length (io.delivered r) + length (io.delivered r))%nat
      with 16%nat by lia.
    f_equal. rewrite skipn_firstn_comm. reflexivity. }
  rewrite Hb. unfold capacity, Payload in *. cbn [buffer].
  split; [|split].
  - rewrite length_app, length_skipn. lia.
  - rewrite skipn_app.
    rewrite (skipn_all2 (io.delivered r)) by lia.
    rewrite skipn_skipn. cbn [app]. f_equal. lia.
  - intros Hclean. unfold io.ReadFull in Heq.
    rewrite (fill_clean_short r 16 Hclean Hlen) in Heq.
    destruct (Nat.leb_spec 16 (length (io.delivered r))) as [|_]; [lia|].
    destruct (length (io.delivered r)) as [|n]; cbn [Nat.ltb Nat.leb Nat.eqb] in *;
      congruence.
Qed.

Lemma ReadIn_short_header_witness :
  exists e f' r',
    ReadIn fresh_frame truncated_header_stream = (f', r', Returned (Some e)) /\
    Header f' = Header fresh_frame /\
    capacity f' = capacity fresh_frame /\
    Payload f' = Payload fresh_frame /\
    ((forall c, In c truncated_header_stream -> snd c = None) ->
     e = if (length (io.delivered truncated_header_stream) =? 0)%nat
         then EOF else ErrUnexpectedEOF).
Proof.
  apply (ReadIn_short_header fresh_frame truncated_header_stream).
  - vm_compute. discriminate.
  - apply Nat.ltb_lt. reflexivity.
Defined.

(** Where the reader stands after a whole frame was read. *)
Lemma ReadIn_frame_reader (f : Frame) (r : io.Reader) :
  16 <= capacity f ->
  (16 <= length (io.delivered r))%nat ->
  16 <= size (header_of_bytes (Header f) (firstn 16 (io.delivered r)))
     < Z.of_nat (length (io.delivered r)) ->
  io.delivered (snd (fst (ReadIn f r)))
  = skipn (Z.to_nat (size (header_of_bytes (Header f) (firstn 16 (io.delivered r)))))
          (io.delivered r).
Proof.
  intros Hcap Hlen Hsz.
  rewrite ReadIn_header_arrived by assumption.
  set (wire := firstn 16 (io.delivered r)) in *.
  set (h := header_of_bytes (Header f) wire) in *.
  assert (Hw : length wire = 16%nat) by (subst wire; rewrite length_firstn; lia).
  assert (Hh : size h <= 65535).
  { pose proof (Uint16_range (firstn 2 wire)). subst h. cbn [size header_of_bytes]. lia. }
  set (f2 := {| buffer := wire ++ Payload f; Header := h |}).
  assert (Hcap2 : capacity f2 = capacity f).
  { unfold capacity, f2, Payload in *. cbn [buffer].
    rewrite length_app, length_skipn. lia. }
  assert (Hrest : io.delivered (snd (io.ReadFull r 16)) = skipn 16 (io.delivered r)).
  { apply ReadFull_rest. lia. }
  unfold read_payload. cbn [Header f2].
  rewrite (PayloadSize_valid h) by lia.
  destruct (Z.ltb_spec 0 (size h - 16)) as [Hpos|Hzero].
  - destruct (SizedPayload_valid f2 ltac:(lia) ltac:(cbn [Header f2]; lia))
      as (k & Hk & ->).
    cbn [Header buffer f2] in *.
    rewrite length_firstn, Nat.min_l.
    + pose proof (ReadFull_rest (snd (io.ReadFull r 16)) (Z.to_nat (size h - 16))) as Hr2.
      destruct (io.ReadFull (snd (io.ReadFull r 16)) (Z.to_nat (size h - 16)))
        as [[d e3] r2].
      cbn [fst snd] in *. rewrite Hr2 by (rewrite Hrest, length_skipn; lia).
      rewrite Hrest, skipn_skipn. f_equal. lia.
    + rewrite length_app, repeat_length. unfold Payload, capacity in *.
      rewrite length_skipn. cbn [buffer f2] in *. lia.
  - cbn [fst snd]. rewrite Hrest. f_equal. lia.
Qed.

(** X12.  When the stream delivers a header with a valid size field and
    more bytes than that size, [ReadIn] succeeds, the frame holds the decoded
    header, the sixteen header bytes and the declared payload bytes, and the
    stream is left exactly at the first byte after the frame. *)
Theorem ReadIn_consumes_one_frame (f : Frame) (r : io.Reader) :
  16 <= capacity f ->
  (16 <= length (io.delivered r))%nat ->
  16 <= size (header_of_bytes (Header f) (firstn 16 (io.delivered r)))
     < Z.of_nat (length (io.delivered r)) ->
  exists g r',
    ReadIn f r = (g, r', Returned None) /\
    Header g = header_of_bytes (Header f) (firstn 16 (io.delivered r)) /\
    headerBuffer g = firstn 16 (io.delivered r) /\
    SizedPayload g
    = (g, Returned (firstn (Z.to_nat (PayloadSize (Header g)))
                           (skipn 16 (io.delivered r)))) /\
    io.delivered r' = skipn (Z.to_nat (FrameSize (Header g))) (io.delivered r).
Proof.
  intros Hcap Hlen Hsz.
  pose proof (ReadIn_frame_reader f r Hcap Hlen Hsz) as Hrd.
  destruct (ReadIn_frame_arrived f r Hcap Hlen ltac:(lia)) as (g & r' & Hread & Hh & Hhb & Hsp).
  rewrite Hread in Hrd. cbn [fst snd] in Hrd.
  exists g, r'. unfold FrameSize. rewrite Hh at 3.
  repeat split; assumption.
Qed.

Lemma ReadIn_consumes_one_frame_witness :
  exists g r',
    ReadIn fresh_frame (bytewise (sample_wire ++ sample_wire)) = (g, r', Returned None) /\
    Header g = header_of_bytes (Header fresh_frame)
                 (firstn 16 (io.delivered (bytewise (sample_wire ++ sample_wire)))) /\
    headerBuffer g = firstn 16 (io.delivered (bytewise (sample_wire ++ sample_wire))) /\
    SizedPayload g
    = (g, Returned (firstn (Z.to_nat (PayloadSize (Header g)))
                           (skipn 16 (io.delivered (bytewise (sample_wire ++ sample_wire)))))) /\
    io.delivered r' = skipn (Z.to_nat (FrameSize (Header g)))
                        (io.delivered (bytewise (sample_wire ++ sample_wire))).
Proof.
  apply (ReadIn_consumes_one_frame fresh_frame (bytewise (sample_wire ++ sample_wire))).
  - vm_compute. discriminate.
  - apply Nat.leb_le. vm_compute. reflexivity.
  - split; vm_compute; [discriminate | reflexivity].
Defined.

(** A valid frame image at the head of the stream is read whole, whatever
    follows it. *)
Lemma ReadIn_wire_image (f : Frame) (r : io.Reader) (h : FrameHeader)
    (p rest : list byte) :
  16 <= capacity f ->
  16 <= size h <= 65535 ->
  0 <= ID h < 2 ^ 32 ->
  Z.of_nat (length p) = size h - 16 ->
  io.delivered r = header_bytes h ++ p ++ rest ->
  exists g r',
    ReadIn f r = (g, r', Returned None) /\
    Header g = {| size := size h; messageType := messageType h;
                  reserved1 := reserved1 h; ID := ID h;
                  reserved := reserved (Header f) |} /\
    SizedPayload g = (g, Returned p) /\
    16 <= capacity g /\
    (rest <> [] -> io.delivered r' = rest).
Proof.
  intros Hcap Hsz Hid Hp Hr.
  assert (Hwire : firstn 16 (io.delivered r) = header_bytes h).
  { rewrite Hr, firstn_app, header_bytes_length.
    rewrite firstn_all2 by (rewrite header_bytes_length; lia).
    cbn [Nat.sub firstn]. apply app_nil_r. }
  assert (Hlen : length (io.delivered r) = (16 + length p + length rest)%nat).
  { rewrite Hr, !length_app, header_bytes_length. lia. }
  assert (Hh : header_of_bytes (Header f) (firstn 16 (io.delivered r))
               = {| size := size h; messageType := messageType h;
                    reserved1 := reserved1 h; ID := ID h;
                    reserved := reserved (Header f) |}).
  { rewrite Hwire. apply header_of_bytes_header_bytes.
    - change (2 ^ 16) with 65536. lia.
    - exact Hid. }
  assert (Hskip : skipn 16 (io.delivered r) = p ++ rest).
  { rewrite Hr, skipn_app, header_bytes_length.
    rewrite skipn_all2 by (rewrite header_bytes_length; lia). reflexivity. }
  destruct (ReadIn_frame_arrived f r Hcap ltac:(lia)) as (g & r' & Hread & Hg & Hhb & Hsp).
  { rewrite Hh. cbn [size]. lia. }
  exists g, r'. rewrite Hh in Hg. split; [exact Hread|]. split; [exact Hg|].
  assert (HL : Z.to_nat (PayloadSize (Header g)) = length p).
  { rewrite Hg. rewrite PayloadSize_valid; cbn [size]; lia. }
  split; [|split].
  - rewrite Hsp, HL, Hskip, firstn_app, Nat.sub_diag, firstn_all. cbn [firstn].
    rewrite app_nil_r. reflexivity.
  - assert (H16 : length (headerBuffer g) = 16%nat)
      by (rewrite Hhb, length_firstn; lia).
    unfold headerBuffer in H16. rewrite length_firstn in H16. unfold capacity. lia.
  - intros Hne.
    pose proof (ReadIn_frame_reader f r Hcap ltac:(lia)) as Hrd.
    rewrite Hh, Hread in Hrd. cbn [size fst snd] in Hrd.
    rewrite Hrd.
    + rewrite Hr. replace (Z.to_nat (size h)) with (length p + 16)%nat by lia.
      rewrite <- skipn_skipn, skipn_app, header_bytes_length.
      rewrite (skipn_all2 (header_bytes h)) by (rewrite header_bytes_length; lia).
      cbn [Nat.sub skipn app]. rewrite skipn_app, Nat.sub_diag, skipn_all.
      reflexivity.
    + destruct rest; [congruence|]. cbn [length] in Hlen. lia.
Qed.

(** X13.  Two valid frames written by [WriteOut] one after the other into
    an in-memory sink and read from a stream that delivers those bytes by two
    calls of [ReadIn] on one and the same frame come back in order: each call
    gives the size, message type, id and payload of the corresponding
    frame. *)
Theorem ReadIn_two_frames_in_order (fa fb f : Frame) (r : io.Reader) :
  16 <= size (Header fa) <= capacity fa -> size (Header fa) <= 65535 ->
  0 <= ID (Header fa) < 2 ^ 32 ->
  16 <= size (Header fb) <= capacity fb -> size (Header fb) <= 65535 ->
  0 <= ID (Header fb) < 2 ^ 32 ->
  16 <= capacity f ->
  io.delivered r
  = snd (fst (WriteOut fb (snd (fst (WriteOut fa ([] : io.Buffer)))))) ->
  exists g1 r1 g2 r2,
    ReadIn f r = (g1, r1, Returned None) /\
    size (Header g1) = size (Header fa) /\
    messageType (Header g1) = messageType (Header fa) /\
    ID (Header g1) = ID (Header fa) /\
    SizedPayload g1
    = (g1, Returned (firstn (Z.to_nat (PayloadSize (Header fa))) (Payload fa))) /\
    ReadIn g1 r1 = (g2, r2, Returned None) /\
    size (Header g2) = size (Header fb) /\
    messageType (Header g2) = messageType (Header fb) /\
    ID (Header g2) = ID (Header fb) /\
    SizedPayload g2
    = (g2, Returned (firstn (Z.to_nat (PayloadSize (Header fb))) (Payload fb))).
Proof.
  intros Hsa Hma Hia Hsb Hmb Hib Hcap Hr.
  assert (Himg : forall (x : Frame) (sink : io.Buffer),
             16 <= size (Header x) <= capacity x -> size (Header x) <= 65535 ->
             snd (fst (WriteOut x sink))
             = sink ++ header_bytes (Header x)
                 ++ firstn (Z.to_nat (PayloadSize (Header x))) (Payload x) /\
             Z.of_nat (length (firstn (Z.to_nat (PayloadSize (Header x))) (Payload x)))
             = size (Header x) - 16).
  { intros x sink Hx Hx'. rewrite WriteOut_Buffer by lia. cbn [fst snd].
    rewrite PayloadSize_valid by lia. split.
    - f_equal. rewrite firstn_app, header_bytes_length.
      rewrite firstn_all2 by (rewrite header_bytes_length; lia).
      f_equal. f_equal. lia.
    - rewrite length_firstn. unfold Payload, capacity in *.
      rewrite length_skipn. lia. }
  destruct (Himg fa [] Hsa Hma) as [Ea La].
  destruct (Himg fb (snd (fst (WriteOut fa ([] : io.Buffer)))) Hsb Hmb) as [Eb Lb].
  rewrite Eb, Ea in Hr. cbn [app] in Hr. rewrite <- app_assoc in Hr.
  set (pa := firstn (Z.to_nat (PayloadSize (Header fa))) (Payload fa)) in *.
  set (pb := firstn (Z.to_nat (PayloadSize (Header fb))) (Payload fb)) in *.
  destruct (ReadIn_wire_image f r (Header fa) pa (header_bytes (Header fb) ++ pb))
    as (g1 & r1 & Hread1 & Hg1 & Hsp1 & Hc1 & Hrest); try assumption; try lia.
  assert (Hr1 : io.delivered r1 = header_bytes (Header fb) ++ pb ++ []).
  { rewrite app_nil_r. apply Hrest. intros E.
    apply (f_equal (@length byte)) in E.
    rewrite length_app, header_bytes_length in E. cbn [length] in E. lia. }
  destruct (ReadIn_wire_image g1 r1 (Header fb) pb [])
    as (g2 & r2 & Hread2 & Hg2 & Hsp2 & _ & _); try assumption; try lia.
  exists g1, r1, g2, r2. rewrite Hg1, Hg2. cbn [size messageType ID].
  repeat split; assumption.
Qed.

Lemma ReadIn_two_frames_in_order_witness :
  exists g1 r1 g2 r2,
    ReadIn fresh_frame
      (bytewise (snd (fst (WriteOut sample_frame
                             (snd (fst (WriteOut used_frame ([] : io.Buffer))))))))
    = (g1, r1, Returned None) /\
    size (Header g1) = size (Header used_frame) /\
    messageType (Header g1) = messageType (Header used_frame) /\
    ID (Header g1) = ID (Header used_frame) /\
    SizedPayload g1
    = (g1, Returned (firstn (Z.to_nat (PayloadSize (Header used_frame)))
                            (Payload used_frame))) /\
    ReadIn g1 r1 = (g2, r2, Returned None) /\
    size (Header g2) = size (Header sample_frame) /\
    messageType (Header g2) = messageType (Header sample_frame) /\
    ID (Header g2) = ID (Header sample_frame) /\
    SizedPayload g2
    = (g2, Returned (firstn (Z.to_nat (PayloadSize (Header sample_frame)))
                            (Payload sample_frame))).
Proof.
  apply (ReadIn_two_frames_in_order used_frame sample_frame fresh_frame).
  - split; vm_compute; discriminate.
  - vm_compute. discriminate.
  - split; vm_compute; [discriminate | reflexivity].
  - split; vm_compute; discriminate.
  - vm_compute. discriminate.
  - split; vm_compute; [discriminate | reflexivity].
  - vm_compute. discriminate.
  - vm_compute. reflexivity.
Defined.

(** X14.  When the header declares a payload and the stream, after its
    sixteen header bytes, delivers fewer bytes than declared, [ReadIn] returns
    an error; the frame then already holds the decoded header and the header
    bytes. *)
Theorem ReadIn_truncated_payload (f : Frame) (r : io.Reader) :
  16 <= capacity f ->
  (16 <= length (io.delivered r))%nat ->
  16 < size (header_of_bytes (Header f) (firstn 16 (io.delivered r))) ->
  Z.of_nat (length (io.delivered (snd (io.ReadFull r 16))))
  < PayloadSize (header_of_bytes (Header f) (firstn 16 (io.delivered r))) ->
  exists e g r',
    ReadIn f r = (g, r', Returned (Some e)) /\
    Header g = header_of_bytes (Header f) (firstn 16 (io.delivered r)) /\
    headerBuffer g = firstn 16 (io.delivered r).
Proof.
  intros Hcap Hlen Hsz Hshort.
  destruct (ReadIn_payload_short f r Hcap Hlen Hsz Hshort) as (e & g & r' & Hread & Hg).
  exists e, g, r'. split; [exact Hread|]. split; [exact Hg|].
  rewrite ReadIn_header_arrived in Hread by assumption.
  set (wire := firstn 16 (io.delivered r)) in *.
  set (h := header_of_bytes (Header f) wire) in *.
  assert (Hw : length wire = 16%nat) by (subst wire; rewrite length_firstn; lia).
  assert (Hh : size h <= 65535).
  { pose proof (Uint16_range (firstn 2 wire)). subst h. cbn [size header_of_bytes]. lia. }
  set (f2 := {| buffer := wire ++ Payload f; Header := h |}) in *.
  assert (Hcap2 : capacity f2 = capacity f).
  { unfold capacity, f2, Payload in *. cbn [buffer].
    rewrite length_app, length_skipn. lia. }
  unfold read_payload in Hread. cbn [Header f2] in Hread.
  rewrite (PayloadSize_valid h) in Hread by lia.
  destruct (Z.ltb_spec 0 (size h - 16)) as [_|]; [|lia].
  destruct (SizedPayload_valid f2 ltac:(lia) ltac:(cbn [Header f2]; lia))
    as (k & Hk & Hsp).
  rewrite Hsp in Hread. cbn [Header buffer f2] in Hread.
  pose proof (ReadFull_length (snd (io.ReadFull r 16))
                (length (firstn (Z.to_nat (size h - 16))
                           (Payload f2 ++ repeat Byte.x00 k)))) as Hd.
  destruct (io.ReadFull (snd (io.ReadFull r 16))
              (length (firstn (Z.to_nat (size h - 16))
                         (Payload f2 ++ repeat Byte.x00 k)))) as [[d e3] r2].
  injection Hread as <- _ _. unfold headerBuffer. cbn [buffer fst] in *.
  rewrite <- app_assoc, store_at_16 by exact Hw.
  rewrite firstn_app, Hw, Nat.sub_diag, firstn_all2 by lia.
  cbn [firstn]. apply app_nil_r.
Qed.

Lemma ReadIn_truncated_payload_witness :
  exists e g r',
    ReadIn fresh_frame truncated_payload_stream = (g, r', Returned (Some e)) /\
    Header g = header_of_bytes (Header fresh_frame)
                 (firstn 16 (io.delivered truncated_payload_stream)) /\
    headerBuffer g = firstn 16 (io.delivered truncated_payload_stream).
Proof.
  apply (ReadIn_truncated_payload fresh_frame truncated_payload_stream).
  - vm_compute. discriminate.
  - apply Nat.leb_le. vm_compute. reflexivity.
  - vm_compute. reflexivity.
  - vm_compute. reflexivity.
Defined.

(** X15.  On a frame without a sixteen-byte header view (the zero value
    [Frame{}]), [ReadIn] returns [typed.ErrEOF] and consumes nothing of the
    stream; the frame is unchanged. *)
Theorem ReadIn_without_buffer (f : Frame) (r : io.Reader) :
  capacity f < 16 ->
  ReadIn f r = (f, r, Returned (Some ErrEOF)).
Proof.
  intros Hcap. unfold ReadIn, FillFrom. cbn [ReadBuffer_Wrap rb_buffer].
  assert (Hb : headerBuffer f = buffer f).
  { unfold headerBuffer, capacity in *. apply firstn_all2. lia. }
  rewrite Hb.
  destruct (Nat.ltb_spec (length (buffer f)) 16) as [_|H];
    [|unfold capacity in Hcap; lia].
  cbn [rb_buffer]. rewrite store_at_0, skipn_all, app_nil_r.
  destruct f; reflexivity.
Qed.

Lemma ReadIn_without_buffer_witness :
  ReadIn Frame_zero undersized_stream
  = (Frame_zero, undersized_stream, Returned (Some ErrEOF)).
Proof.
  apply (ReadIn_without_buffer Frame_zero undersized_stream). reflexivity.
Defined.

(** ** More on writing a frame *)

Section WithWriter.
Context {W : Type} `{io.Writer W}.

Lemma WriteOut_frame (f : Frame) (w : W) :
  capacity (fst (fst (WriteOut f w))) = capacity f /\
  Header (fst (fst (WriteOut f w))) = Header f /\
  Payload (fst (fst (WriteOut f w))) = Payload f.
Proof.
  unfold WriteOut.
  pose proof (FrameHeader_write_length (Header f) (WriteBuffer_Wrap (headerBuffer f)))
    as Hlen.
  destruct (FrameHeader_write (Header f) (WriteBuffer_Wrap (headerBuffer f)))
    as [e1 w1].
  cbn [snd WriteBuffer_Wrap wb_buffer] in Hlen.
  set (f1 := {| buffer := store_at (buffer f) 0 (wb_buffer w1); Header := Header f |}).
  assert (Hf1 : capacity f1 = capacity f /\ Header f1 = Header f
                /\ Payload f1 = Payload f).
  { unfold capacity, Payload, f1, headerBuffer in *. cbn [buffer Header].
    rewrite length_firstn in Hlen. rewrite store_at_0.
    split; [|split; [reflexivity|]].
    - rewrite length_app, length_skipn. lia.
    - rewrite Hlen. destruct (Nat.le_gt_cases 16 (length (buffer f))) as [Hge|Hlt].
      + rewrite Nat.min_l by lia. rewrite Nat.min_l in Hlen by lia.
        rewrite skipn_app, Hlen, Nat.sub_diag, skipn_all2 by lia. reflexivity.
      + rewrite Nat.min_r by lia. rewrite Nat.min_r in Hlen by lia.
        rewrite skipn_all, app_nil_r.
        rewrite !skipn_all2 by lia. reflexivity. }
  destruct e1 as [err|]; [exact Hf1|].
  destruct (FrameSize (Header f1) <=? capacity f1); [|exact Hf1].
  destruct (io.Write w (firstn (Z.to_nat (FrameSize (Header f1))) (buffer f1)))
    as [w' [n e2]].
  exact Hf1.
Qed.

Lemma WriteOut_valid (f : Frame) (w : W) :
  16 <= size (Header f) <= capacity f ->
  size (Header f) <= 65535 ->
  WriteOut f w
  = ({| buffer := header_bytes (Header f) ++ Payload f; Header := Header f |},
     fst (io.Write w (header_bytes (Header f)
                      ++ firstn (Z.to_nat (PayloadSize (Header f))) (Payload f))),
     Returned (snd (snd (io.Write w (header_bytes (Header f)
                      ++ firstn (Z.to_nat (PayloadSize (Header f))) (Payload f)))))).
Proof.
  intros Hsz Hmax. unfold WriteOut.
  rewrite FrameHeader_write_16 by (apply headerBuffer_length; lia).
  cbn [wb_buffer]. rewrite store_at_0, header_bytes_length.
  fold (Payload f). cbn [Header]. unfold FrameSize.
  assert (Hc : capacity {| buffer := header_bytes (Header f) ++ Payload f;
                           Header := Header f |} = capacity f).
  { unfold capacity, Payload in *. cbn [buffer].
    rewrite length_app, header_bytes_length, length_skipn. lia. }
  rewrite Hc. destruct (Z.leb_spec (size (Header f)) (capacity f)); [|lia].
  cbn [buffer].
  assert (Hout : firstn (Z.to_nat (size (Header f))) (header_bytes (Header f) ++ Payload f)
                 = header_bytes (Header f)
                     ++ firstn (Z.to_nat (PayloadSize (Header f))) (Payload f)).
  { rewrite firstn_app, header_bytes_length.
    rewrite firstn_all2 by (rewrite header_bytes_length; lia).
    rewrite PayloadSize_valid by lia. f_equal. f_equal. lia. }
  rewrite Hout.
  destruct (io.Write w (header_bytes (Header f)
              ++ firstn (Z.to_nat (PayloadSize (Header f))) (Payload f)))
    as [w' [n e2]].
  reflexivity.
Qed.

End WithWriter.

(** X16.  Whatever the writer does and however [WriteOut] ends, the
    frame keeps its capacity, its header and its payload bytes: only the
    sixteen header bytes of the buffer are written. *)
Theorem WriteOut_keeps_frame {W : Type} `{io.Writer W} (f : Frame) (w : W) :
  capacity (fst (fst (WriteOut f w))) = capacity f /\
  Header (fst (fst (WriteOut f w))) = Header f /\
  Payload (fst (fst (WriteOut f w))) = Payload f.
Proof. apply WriteOut_frame. Qed.

(** X17.  For a frame whose size field is valid and within the capacity,
    [WriteOut] encodes the header into the header view and makes one [Write]
    call with exactly [FrameSize()] bytes, the encoded header followed by the
    sized payload; it returns the error of that call, whatever byte count the
    call reported. *)
Theorem WriteOut_one_Write {W : Type} `{io.Writer W} (f : Frame) (w : W) :
  16 <= size (Header f) <= capacity f ->
  size (Header f) <= 65535 ->
  exists f' hb,
    FrameHeader_write (Header f) (WriteBuffer_Wrap (headerBuffer f))
    = (None, {| wb_buffer := hb; wb_pos := 16; wb_err := None |}) /\
    Z.of_nat (length (hb ++ firstn (Z.to_nat (PayloadSize (Header f))) (Payload f)))
    = FrameSize (Header f) /\
    WriteOut f w
    = (f',
       fst (io.Write w (hb ++ firstn (Z.to_nat (PayloadSize (Header f))) (Payload f))),
       Returned (snd (snd (io.Write w
                  (hb ++ firstn (Z.to_nat (PayloadSize (Header f))) (Payload f)))))) /\
    headerBuffer f' = hb.
Proof.
  intros Hsz Hmax.
  exists {| buffer := header_bytes (Header f) ++ Payload f; Header := Header f |}.
  exists (header_bytes (Header f)).
  split; [apply FrameHeader_write_16, headerBuffer_length; lia|].
  split.
  - rewrite length_app, header_bytes_length, length_firstn.
    rewrite PayloadSize_valid by lia. unfold FrameSize, Payload, capacity in *.
    rewrite length_skipn. lia.
  - split; [apply WriteOut_valid; assumption|].
    unfold headerBuffer. cbn [buffer]. rewrite firstn_app, header_bytes_length.
    rewrite firstn_all2 by (rewrite header_bytes_length; lia).
    cbn [Nat.sub firstn]. apply app_nil_r.
Qed.

Lemma WriteOut_one_Write_witness :
  exists f' hb,
    FrameHeader_write (Header sample_frame) (WriteBuffer_Wrap (headerBuffer sample_frame))
    = (None, {| wb_buffer := hb; wb_pos := 16; wb_err := None |}) /\
    Z.of_nat (length (hb ++ firstn (Z.to_nat (PayloadSize (Header sample_frame)))
                              (Payload sample_frame)))
    = FrameSize (Header sample_frame) /\
    WriteOut sample_frame broken_pipe
    = (f',
       fst (io.Write broken_pipe
              (hb ++ firstn (Z.to_nat (PayloadSize (Header sample_frame)))
                       (Payload sample_frame))),
       Returned (snd (snd (io.Write broken_pipe
                  (hb ++ firstn (Z.to_nat (PayloadSize (Header sample_frame)))
                           (Payload sample_frame)))))) /\
    headerBuffer f' = hb.
Proof.
  apply (WriteOut_one_Write sample_frame broken_pipe).
  - split; vm_compute; discriminate.
  - vm_compute. discriminate.
Defined.

(** X18.  When the header declares a frame size beyond the capacity of
    the buffer, [WriteOut] panics on slicing the buffer: nothing reaches the
    writer, and the header bytes have already been encoded into the
    buffer. *)
Theorem WriteOut_beyond_capacity_panics {W : Type} `{io.Writer W} (f : Frame) (w : W) :
  16 <= capacity f < size (Header f) ->
  exists f',
    WriteOut f w = (f', w, Panic) /\
    exists hb,
      FrameHeader_write (Header f) (WriteBuffer_Wrap (headerBuffer f))
      = (None, {| wb_buffer := hb; wb_pos := 16; wb_err := None |}) /\
      headerBuffer f' = hb.
Proof.
  intros Hc. unfold WriteOut.
  rewrite FrameHeader_write_16 by (apply headerBuffer_length; lia).
  cbn [wb_buffer]. rewrite store_at_0, header_bytes_length.
  fold (Payload f). cbn [Header]. unfold FrameSize.
  assert (Hc' : capacity {| buffer := header_bytes (Header f) ++ Payload f;
                            Header := Header f |} = capacity f).
  { unfold capacity, Payload in *. cbn [buffer].
    rewrite length_app, header_bytes_length, length_skipn. lia. }
  rewrite Hc'. destruct (Z.leb_spec (size (Header f)) (capacity f)); [lia|].
  eexists. split; [reflexivity|]. eexists. split; [reflexivity|].
  unfold headerBuffer. cbn [buffer]. rewrite firstn_app, header_bytes_length.
  rewrite firstn_all2 by (rewrite header_bytes_length; lia).
  cbn [Nat.sub firstn]. apply app_nil_r.
Qed.

Lemma WriteOut_beyond_capacity_panics_witness :
  exists f',
    WriteOut growing_frame ([] : io.Buffer) = (f', [], Panic) /\
    exists hb,
      FrameHeader_write (Header growing_frame)
        (WriteBuffer_Wrap (headerBuffer growing_frame))
      = (None, {| wb_buffer := hb; wb_pos := 16; wb_err := None |}) /\
      headerBuffer f' = hb.
Proof.
  apply (WriteOut_beyond_capacity_panics growing_frame ([] : io.Buffer)).
  split; vm_compute; [discriminate | reflexivity].
Defined.

(** X19.  On a frame without a sixteen-byte header view, [WriteOut]
    returns [typed.ErrBufferFull] and nothing reaches the writer. *)
Theorem WriteOut_without_buffer {W : Type} `{io.Writer W} (f : Frame) (w : W) :
  capacity f < 16 ->
  exists f',
    WriteOut f w = (f', w, Returned (Some ErrBufferFull)) /\
    capacity f' = capacity f /\ Header f' = Header f.
Proof.
  intros Hc.
  pose proof (WriteOut_frame f w) as (H1 & H2 & _).
  unfold WriteOut in *.
  assert (Hl : (length (headerBuffer f) < 16)%nat).
  { unfold headerBuffer, capacity in *. rewrite length_firstn. lia. }
  pose proof (FrameHeader_write_short_err (Header f) (headerBuffer f) Hl) as He.
  destruct (FrameHeader_write (Header f) (WriteBuffer_Wrap (headerBuffer f)))
    as [e1 w1].
  cbn [fst] in He. subst e1. cbn [fst] in *.
  eexists. split; [reflexivity|]. split; assumption.
Qed.

Lemma WriteOut_without_buffer_witness :
  exists f',
    WriteOut Frame_zero ([] : io.Buffer) = (f', [], Returned (Some ErrBufferFull)) /\
    capacity f' = capacity Frame_zero /\ Header f' = Header Frame_zero.
Proof.
  apply (WriteOut_without_buffer Frame_zero ([] : io.Buffer)). reflexivity.
Defined.

(** ** Relaying a frame *)

(** A frame that [SizedPayload] leaves as it is holds its whole payload. *)
Lemma SizedPayload_fixed (g : Frame) (p : list byte) :
  16 <= capacity g ->
  16 <= size (Header g) <= 65535 ->
  SizedPayload g = (g, Returned p) ->
  size (Header g) <= capacity g /\
  p = firstn (Z.to_nat (size (Header g) - 16)) (Payload g).
Proof.
  intros Hcap Hsz Hsp.
  destruct (Z.le_gt_cases (size (Header g)) (capacity g)) as [Hfit|Hgrow].
  - rewrite SizedPayload_fits in Hsp by lia. injection Hsp as <-. split; [lia|reflexivity].
  - destruct (SizedPayload_grows g Hcap ltac:(lia)) as (k & Hk & _ & _ & Hc & Heq).
    cbv zeta in Hc, Heq. rewrite Heq in Hsp. injection Hsp as Hg _.
    rewrite Hg in Hc.
    assert (2 <= 2 ^ Z.of_nat k) by (apply (Z.pow_le_mono_r 2 1); lia).
    nia.
Qed.

(** X20.  A frame read by [ReadIn] and written by [WriteOut] without a
    change is emitted with the bytes it arrived with, except bytes 8 to 15,
    which are the [reserved] array of the receiving frame: bytes 0 to 7
    (including [reserved1]) and the payload are those of the stream. *)
Theorem ReadIn_WriteOut_relay (f : Frame) (r : io.Reader) :
  16 <= capacity f ->
  (16 <= length (io.delivered r))%nat ->
  16 <= size (header_of_bytes (Header f) (firstn 16 (io.delivered r)))
     <= Z.of_nat (length (io.delivered r)) ->
  exists g r' g' out,
    ReadIn f r = (g, r', Returned None) /\
    WriteOut g ([] : io.Buffer) = (g', out, Returned None) /\
    out = firstn 8 (io.delivered r)
          ++ byte8_slice (reserved (Header f))
          ++ firstn (Z.to_nat (PayloadSize (Header g))) (skipn 16 (io.delivered r)) /\
    Z.of_nat (length out) = FrameSize (Header g).
Proof.
  intros Hcap Hlen Hsz.
  destruct (ReadIn_frame_arrived f r Hcap Hlen Hsz) as (g & r' & Hread & Hg & Hhb & Hsp).
  set (wire := firstn 16 (io.delivered r)) in *.
  assert (Hw : length wire = 16%nat) by (subst wire; rewrite length_firstn; lia).
  assert (Hmax : size (Header g) <= 65535).
  { rewrite Hg. pose proof (Uint16_range (firstn 2 wire)).
    cbn [size header_of_bytes]. lia. }
  assert (Hs16 : 16 <= size (Header g)) by (rewrite Hg; lia).
  assert (Hcg : 16 <= capacity g).
  { assert (H16 : length (headerBuffer g) = 16%nat) by (rewrite Hhb; exact Hw).
    unfold headerBuffer in H16. rewrite length_firstn in H16. unfold capacity. lia. }
  destruct (SizedPayload_fixed g _ Hcg ltac:(lia) Hsp) as [Hfit Hp].
  rewrite PayloadSize_valid in * by lia.
  exists g, r'. do 2 eexists. split; [exact Hread|].
  rewrite WriteOut_Buffer by lia. split; [reflexivity|].
  cbn [app].
  assert (Hout : firstn (Z.to_nat (size (Header g))) (header_bytes (Header g) ++ Payload g)
                 = header_bytes (Header g)
                     ++ firstn (Z.to_nat (size (Header g) - 16)) (Payload g)).
  { rewrite firstn_app, header_bytes_length.
    rewrite firstn_all2 by (rewrite header_bytes_length; lia).
    f_equal. f_equal. lia. }
  rewrite Hout. split.
  - rewrite <- Hp. rewrite Hg at 1.
    rewrite header_bytes_header_of_bytes by exact Hw.
    rewrite <- app_assoc. subst wire. rewrite firstn_firstn.
    rewrite (PayloadSize_valid (Header g)) by lia. reflexivity.
  - rewrite length_app, header_bytes_length, length_firstn.
    unfold FrameSize, Payload, capacity in *. rewrite length_skipn. lia.
Qed.

Lemma ReadIn_WriteOut_relay_witness :
  exists g r' g' out,
    ReadIn fresh_frame [(wire_with_reserved, None)] = (g, r', Returned None) /\
    WriteOut g ([] : io.Buffer) = (g', out, Returned None) /\
    out = firstn 8 (io.delivered [(wire_with_reserved, None)])
          ++ byte8_slice (reserved (Header fresh_frame))
          ++ firstn (Z.to_nat (PayloadSize (Header g)))
               (skipn 16 (io.delivered [(wire_with_reserved, None)])) /\
    Z.of_nat (length out) = FrameSize (Header g).
Proof.
  apply (ReadIn_WriteOut_relay fresh_frame [(wire_with_reserved, None)]).
  - vm_compute. discriminate.
  - apply Nat.leb_le. vm_compute. reflexivity.
  - split; vm_compute; discriminate.
Defined.

(** ** More on encoding a message into a frame *)

Lemma store_at_payload_same (b : list byte) : store_at b 16 (skipn 16 b) = b.
Proof.
  unfold store_at.
  rewrite (skipn_all2 (n := 16 + length (skipn 16 b))) by (rewrite length_skipn; lia).
  rewrite app_nil_r. apply firstn_skipn.
Qed.

(** X21.  When the encoder succeeds having written at most 65519 bytes,
    [Frame.write] sets the payload size to the number of bytes written, the
    message type and id to the message's, [reserved1] to zero; it leaves the
    [reserved] array, the header bytes of the buffer and the capacity as they
    were, and the payload view is the slice the encoder wrote into. *)
Theorem Frame_write_sets_header {M : Type} `{message M}
    (f : Frame) (msg : M) (w1 : WriteBuffer) :
  16 <= capacity f ->
  msg_write msg (WriteBuffer_Wrap (Payload f)) = (None, w1) ->
  0 <= BytesWritten w1 <= 65519 ->
  exists f1,
    Frame_write f msg = (f1, None) /\
    PayloadSize (Header f1) = BytesWritten w1 /\
    FrameSize (Header f1) = BytesWritten w1 + 16 /\
    messageType (Header f1) = msg_messageType msg /\
    reserved1 (Header f1) = Byte.x00 /\
    ID (Header f1) = msg_ID msg /\
    reserved (Header f1) = reserved (Header f) /\
    Payload f1 = wb_buffer w1 /\
    headerBuffer f1 = headerBuffer f /\
    capacity f1 = capacity f.
Proof.
  intros Hcap Hw HL.
  destruct (Frame_write_encoded f msg w1 Hcap Hw HL)
    as (f1 & Hf1 & Hsz & Hmt & Hr1 & Hid & Hp & Hc).
  pose proof (Frame_write_buffer f msg) as [_ Hh].
  rewrite Hf1 in Hh. cbn [fst] in Hh.
  exists f1. split; [exact Hf1|].
  split; [rewrite PayloadSize_valid; rewrite Hsz; lia|].
  repeat split; try assumption.
  unfold Frame_write in Hf1. rewrite Hw in Hf1. injection Hf1 as <-. reflexivity.
Qed.

Lemma Frame_write_sets_header_witness :
  exists f1,
    Frame_write used_frame sample_message = (f1, None) /\
    PayloadSize (Header f1) = BytesWritten sample_cursor /\
    FrameSize (Header f1) = BytesWritten sample_cursor + 16 /\
    messageType (Header f1) = msg_messageType sample_message /\
    reserved1 (Header f1) = Byte.x00 /\
    ID (Header f1) = msg_ID sample_message /\
    reserved (Header f1) = reserved (Header used_frame) /\
    Payload f1 = wb_buffer sample_cursor /\
    headerBuffer f1 = headerBuffer used_frame /\
    capacity f1 = capacity used_frame.
Proof.
  apply (Frame_write_sets_header used_frame sample_message sample_cursor).
  - vm_compute. discriminate.
  - vm_compute. reflexivity.
  - split; vm_compute; discriminate.
Defined.

(** The cursor after a byte string that fits was written at its start. *)
Lemma raw_write_fits (m : rawMessage) (b : list byte) :
  (length (raw_body m) <= length b)%nat ->
  msg_write m (WriteBuffer_Wrap b)
  = (None, {| wb_buffer := raw_body m ++ skipn (length (raw_body m)) b;
              wb_pos := length (raw_body m); wb_err := None |}).
Proof.
  intros H. cbn [msg_write rawMessage_message].
  unfold bind, WriteBytes, put, WriteBuffer_Err, wb_remaining.
  cbn [WriteBuffer_Wrap wb_err wb_pos wb_buffer skipn].
  destruct (Nat.ltb_spec (length b) (length (raw_body m))); [lia|].
  reflexivity.
Qed.

(** X22.  A message that encodes to a byte string no longer than the
    payload view (and than 65519): [Frame.write] succeeds, the sized payload
    is that byte string, and the payload bytes after it are unchanged. *)
Theorem Frame_write_bytes_fit (f : Frame) (m : rawMessage) :
  16 <= capacity f ->
  Z.of_nat (length (raw_body m)) <= capacity f - 16 ->
  Z.of_nat (length (raw_body m)) <= 65519 ->
  exists f1,
    Frame_write f m = (f1, None) /\
    PayloadSize (Header f1) = Z.of_nat (length (raw_body m)) /\
    SizedPayload f1 = (f1, Returned (raw_body m)) /\
    skipn (length (raw_body m)) (Payload f1) = skipn (length (raw_body m)) (Payload f).
Proof.
  intros Hcap Hfit Hmax.
  assert (Hlen : (length (raw_body m) <= length (Payload f))%nat).
  { unfold Payload, capacity in *. rewrite length_skipn. lia. }
  pose proof (raw_write_fits m (Payload f) Hlen) as Hw.
  set (w1 := {| wb_buffer := raw_body m ++ skipn (length (raw_body m)) (Payload f);
                wb_pos := length (raw_body m); wb_err := None |}) in *.
  assert (Hbw : BytesWritten w1 = Z.of_nat (length (raw_body m))).
  { unfold BytesWritten, wb_remaining, w1. cbn [wb_buffer wb_pos].
    rewrite skipn_app, skipn_all, Nat.sub_diag. cbn [skipn app].
    rewrite length_app. lia. }
  destruct (Frame_write_encoded f m w1 Hcap Hw ltac:(lia))
    as (f1 & Hf1 & Hsz & _ & _ & _ & Hp & Hc).
  exists f1. split; [exact Hf1|].
  assert (Hps : PayloadSize (Header f1) = Z.of_nat (length (raw_body m)))
    by (rewrite PayloadSize_valid; rewrite Hsz, Hbw; lia).
  split; [exact Hps|]. split.
  - rewrite SizedPayload_fits by lia.
    rewrite Hsz, Hbw, Hp. unfold w1. cbn [wb_buffer].
    replace (Z.to_nat (Z.of_nat (length (raw_body m)) + 16 - 16))
      with (length (raw_body m)) by lia.
    rewrite firstn_app, Nat.sub_diag, firstn_all. cbn [firstn].
    rewrite app_nil_r. reflexivity.
  - rewrite Hp. unfold w1. cbn [wb_buffer].
    rewrite skipn_app, skipn_all, Nat.sub_diag. reflexivity.
Qed.

Lemma Frame_write_bytes_fit_witness :
  exists f1,
    Frame_write fresh_frame sample_message = (f1, None) /\
    PayloadSize (Header f1) = Z.of_nat (length (raw_body sample_message)) /\
    SizedPayload f1 = (f1, Returned (raw_body sample_message)) /\
    skipn (length (raw_body sample_message)) (Payload f1)
    = skipn (length (raw_body sample_message)) (Payload fresh_frame).
Proof.
  apply (Frame_write_bytes_fit fresh_frame sample_message).
  - vm_compute. discriminate.
  - vm_compute. discriminate.
  - vm_compute. discriminate.
Defined.

(** X23.  A message that encodes to a byte string longer than the payload
    view: [Frame.write] does not grow the buffer; it returns
    [typed.ErrBufferFull] and the frame is unchanged.  On a frame from
    [NewFrame] this is every encoding above 1008 bytes. *)
Theorem Frame_write_bytes_too_long (f : Frame) (m : rawMessage) :
  (length (Payload f) < length (raw_body m))%nat ->
  Frame_write f m = (f, Some ErrBufferFull).
Proof.
  intros Hlong. unfold Frame_write.
  rewrite raw_write_too_long by exact Hlong.
  cbn [wb_buffer]. unfold Payload. rewrite store_at_payload_same.
  destruct f; reflexivity.
Qed.

Lemma Frame_write_bytes_too_long_witness :
  Frame_write fresh_frame
    {| raw_id := 1; raw_type := Byte.x03; raw_body := repeat Byte.x01 1009 |}
  = (fresh_frame, Some ErrBufferFull).
Proof.
  apply (Frame_write_bytes_too_long fresh_frame
           {| raw_id := 1; raw_type := Byte.x03; raw_body := repeat Byte.x01 1009 |}).
  apply Nat.ltb_lt. vm_compute. reflexivity.
Defined.

(** ** Decoding a message out of a frame *)

(** X24.  After a successful [Frame.write] of at most 65519 bytes,
    [Frame.read] on the same frame hands the decoder a cursor over exactly
    the bytes the encoder wrote, and leaves the frame unchanged. *)
Theorem Frame_read_after_write {M D : Type} `{message M} `{decoder D}
    (f : Frame) (msg : M) (w1 : WriteBuffer) (d : D) :
  16 <= capacity f ->
  msg_write msg (WriteBuffer_Wrap (Payload f)) = (None, w1) ->
  0 <= BytesWritten w1 <= 65519 ->
  exists f1,
    Frame_write f msg = (f1, None) /\
    Frame_read f1 d
    = (f1, Returned (fst (msg_read d (ReadBuffer_Wrap
                            (firstn (Z.to_nat (BytesWritten w1)) (wb_buffer w1)))))).
Proof.
  intros Hcap Hw HL.
  destruct (Frame_write_encoded f msg w1 Hcap Hw HL)
    as (f1 & Hf1 & Hsz & _ & _ & _ & Hp & Hc).
  pose proof (BytesWritten_range w1) as Hbw.
  exists f1. split; [exact Hf1|]. unfold Frame_read.
  rewrite SizedPayload_fits.
  - rewrite Hsz, Hp. replace (BytesWritten w1 + 16 - 16) with (BytesWritten w1) by lia.
    destruct (msg_read d _) as [[m' e] rb]. reflexivity.
  - rewrite Hsz, Hc. rewrite <- Hp in Hbw. unfold Payload, capacity in *.
    rewrite length_skipn in Hbw. lia.
  - lia.
Qed.

Lemma Frame_read_after_write_witness :
  exists f1,
    Frame_write fresh_frame sample_message = (f1, None) /\
    Frame_read f1 {| want := 100; got := [] |}
    = (f1, Returned (fst (msg_read {| want := 100; got := [] |}
                            (ReadBuffer_Wrap
                               (firstn (Z.to_nat (BytesWritten sample_cursor))
                                       (wb_buffer sample_cursor)))))).
Proof.
  apply (Frame_read_after_write fresh_frame sample_message sample_cursor
           {| want := 100; got := [] |}).
  - vm_compute. discriminate.
  - vm_compute. reflexivity.
  - split; vm_compute; discriminate.
Defined.

(** X25.  After [ReadIn] has read a valid frame, the frame's message type
    is byte 2 of the stream and [Frame.read] hands the decoder a cursor over
    exactly the declared payload bytes of the stream. *)
Theorem Frame_read_after_ReadIn {D : Type} `{decoder D}
    (f : Frame) (r : io.Reader) (d : D) :
  16 <= capacity f ->
  (16 <= length (io.delivered r))%nat ->
  16 <= size (header_of_bytes (Header f) (firstn 16 (io.delivered r)))
     <= Z.of_nat (length (io.delivered r)) ->
  exists g r',
    ReadIn f r = (g, r', Returned None) /\
    Frame_messageType g = nth 2 (io.delivered r) Byte.x00 /\
    Frame_read g d
    = (g, Returned (fst (msg_read d (ReadBuffer_Wrap
                           (firstn (Z.to_nat (PayloadSize (Header g)))
                                   (skipn 16 (io.delivered r))))))).
Proof.
  intros Hcap Hlen Hsz.
  destruct (ReadIn_frame_arrived f r Hcap Hlen Hsz) as (g & r' & Hread & Hg & _ & Hsp).
  exists g, r'. split; [exact Hread|]. split.
  - unfold Frame_messageType. rewrite Hg. cbn [messageType header_of_bytes].
    rewrite nth_firstn. reflexivity.
  - unfold Frame_read. rewrite Hsp.
    destruct (msg_read d _) as [[m' e] rb]. reflexivity.
Qed.

Lemma Frame_read_after_ReadIn_witness :
  exists g r',
    ReadIn fresh_frame (bytewise sample_wire) = (g, r', Returned None) /\
    Frame_messageType g = nth 2 (io.delivered (bytewise sample_wire)) Byte.x00 /\
    Frame_read g {| want := 100; got := [] |}
    = (g, Returned (fst (msg_read {| want := 100; got := [] |}
                           (ReadBuffer_Wrap
                              (firstn (Z.to_nat (PayloadSize (Header g)))
                                      (skipn 16 (io.delivered (bytewise sample_wire)))))))).
Proof.
  apply (Frame_read_after_ReadIn fresh_frame (bytewise sample_wire)
           {| want := 100; got := [] |}).
  - vm_compute. discriminate.
  - apply Nat.leb_le. vm_compute. reflexivity.
  - split; vm_compute; discriminate.
Defined.
